(** * zk-money: bridge-data adapter, progress view and migration form

    A shallow embedding of three TypeScript sources of the zk-money
    front end, and the properties the specification states about them:

    - [Euler]: src/bridge-clients/client/euler/euler-redemption-bridge-data.ts
    - [ProgressTemplate]: zk-money/src/views/account/progress_template.tsx
    - [MigrateForm]: zk-money/src/app/account_forms/migrate_form.ts

    JavaScript [bigint] values are [Z]; enum-valued [number]s are [Z];
    [undefined] is [None] (or an explicit constructor); a promise is its
    settled outcome.  The count-down hook [useCountDownData] computes in
    double-precision floating point and is not embedded.

    The migration form is stateful and asynchronous.  Its operations are
    functions on a world: the fields of the form, a clock that counts the
    awaits, and the log of the events emitted and of the calls made.  The
    collaborators (wallet SDK, key vault, database) are an environment that
    says, for the await of each tick, whether the call rejects, what it
    answers, and which public methods are called on the form meanwhile. *)

From Stdlib Require Import ZArith Lia Bool List String.
From stdpp Require Import base option list gmap strings.

Local Open Scope string_scope.
Local Open Scope list_scope.
Local Open Scope Z_scope.

(** ** JavaScript outcomes shared by the three modules *)

Module Js.

(** The exceptions the sources can raise: [new Error(msg)], the
    [TypeError] of the language itself, and the rejection of a call into
    an external collaborator (contract read, wallet SDK, database). *)
Inductive Exception : Type :=
| Error (msg : string)
| TypeError (msg : string)
| Rejection (what : string).

(** A synchronous call either returns a value or throws. *)
Inductive Completion (A : Type) : Type :=
| Return (a : A)
| Throw (e : Exception).
Arguments Return {A} a.
Arguments Throw {A} e.

(** A promise, observed once settled. *)
Inductive Promise (A : Type) : Type :=
| Resolved (a : A)
| Rejected (e : Exception).
Arguments Resolved {A} a.
Arguments Rejected {A} e.

(** A value that is either a [bigint] or [undefined]. *)
Inductive Value : Type :=
| BigInt (z : Z)
| Undefined.

Definition isBigInt (v : Value) : bool :=
  match v with BigInt _ => true | Undefined => false end.

(** [a * v] for a bigint [a]: mixing a bigint with [undefined] is a
    [TypeError]. *)
Definition mulBigInt (a : Z) (v : Value) : Completion Z :=
  match v with
  | BigInt b => Return (a * b)
  | Undefined => Throw (TypeError "Cannot mix BigInt and other types, use explicit conversions")
  end.

(** Bigint division truncates toward zero. *)
Definition divBigInt (a b : Z) : Z := Z.quot a b.

End Js.

(** ** The Euler redemption bridge-data adapter *)

Module Euler.
Import Js.

(** bridge-data.js is an interface file; an asset carries an id, a type
    and an ERC-20 address. *)
Inductive AztecAssetType : Type := ETH | ERC20 | VIRTUAL | NOT_USED.

Record AztecAsset : Type := {
  id : Z;
  assetType : AztecAssetType;
  erc20Address : string;
}.

Record AssetValue : Type := {
  assetId : Z;
  value : Z;
}.

Record UnderlyingAsset : Type := {
  address : string;
  name : string;
  symbol : string;
  decimals : Z;
  amount : Z;
}.

(** The contract reads the adapter issues through its ethers provider.
    [None] is a read that rejects; for [asset] it also covers an answer
    that [EthAddress.fromString] refuses. *)
Record Provider : Type := {
  read_asset : string -> option string;
  read_name : string -> option string;
  read_symbol : string -> option string;
  read_decimals : string -> option Z;
}.

Inductive ContractCall : Type :=
| CallAsset (vault : string)
| CallName (token : string)
| CallSymbol (token : string)
| CallDecimals (token : string).

(** An adapter method's outcome together with the contract reads it
    issued, in order. *)
Definition Traced (A : Type) : Type := (A * list ContractCall)%type.

(** [minTokenOut]: the object literal, keyed by asset id. *)
Definition minTokenOut : gmap Z Z :=
  <[0 := 99 * 10 ^ 16]>   (* ETH *)
  (<[1 := 96 * 10 ^ 16]>  (* DAI *)
  (<[2 := 99 * 10 ^ 16]>  (* WSTETH *)
  (<[5 := 99 * 10 ^ 16]>  (* weWETH *)
  (<[6 := 99 * 10 ^ 16]>  (* weWSTETH *)
  (<[7 := 96 * 10 ^ 16]>  (* weDAI *)
   ∅))))).

(** The keys of the literal. *)
Definition minTokenOutIds : list Z := [0; 1; 2; 5; 6; 7].

(** [this.minTokenOut[id]]: a missing key reads [undefined]. *)
Definition minTokenOut_at (i : Z) : Value :=
  match minTokenOut !! i with
  | Some v => BigInt v
  | None => Undefined
  end.

Definition notImplemented {A : Type} : Completion A :=
  Throw (Error "Method not implemented.").

Definition getInteractionPresentValue (interactionNonce : Z) (inputValue : Z)
  : Completion (Promise (list AssetValue)) := notImplemented.

Definition getAuxData (inputAssetA inputAssetB outputAssetA outputAssetB : AztecAsset)
  : Traced (Promise (list Value)) :=
  (Resolved [minTokenOut_at (id outputAssetA)], []).

Definition getExpectedOutput
  (inputAssetA inputAssetB outputAssetA outputAssetB : AztecAsset)
  (auxData inputValue : Z) : Traced (Promise (list Z)) :=
  (Resolved [divBigInt (inputValue * auxData) (10 ^ 18)], []).

Definition getExpiration (interactionNonce : Z) : Completion (Promise Z) :=
  notImplemented.

Definition hasFinalised (interactionNonce : Z) : Completion (Promise bool) :=
  notImplemented.

Definition getAPR (yieldAsset : AztecAsset) : Traced (Promise Z) :=
  (Resolved 0, []).

Definition getMarketSize
  (inputAssetA inputAssetB outputAssetA outputAssetB : AztecAsset) (auxData : Z)
  : Traced (Promise (list AssetValue)) :=
  (Resolved [{| assetId := id inputAssetA; value := 0 |}], []).

Definition getInteractionAPR (interactionNonce : Z) : Completion (Promise (list Z)) :=
  notImplemented.

(** [getUnderlyingAmount]: the vault's [asset()] is awaited first; the
    three metadata reads are then issued, the amount is computed, and the
    three reads are awaited in the order name, symbol, decimals. *)
Definition getUnderlyingAmount (p : Provider) (share : AztecAsset) (amount : Z)
  : Traced (Promise UnderlyingAsset) :=
  let vault := erc20Address share in
  match read_asset p vault with
  | None => (Rejected (Rejection "asset"), [CallAsset vault])
  | Some assetAddress =>
    let calls := [CallAsset vault; CallName assetAddress;
                  CallSymbol assetAddress; CallDecimals assetAddress] in
    match mulBigInt amount (minTokenOut_at (id share)) with
    | Throw e => (Rejected e, calls)
    | Return product =>
      let underlyingAmount := divBigInt product (10 ^ 18) in
      match read_name p assetAddress with
      | None => (Rejected (Rejection "name"), calls)
      | Some n =>
        match read_symbol p assetAddress with
        | None => (Rejected (Rejection "symbol"), calls)
        | Some s =>
          match read_decimals p assetAddress with
          | None => (Rejected (Rejection "decimals"), calls)
          | Some d =>
            (Resolved {| address := assetAddress; name := n; symbol := s;
                         decimals := d; amount := underlyingAmount |}, calls)
          end
        end
      end
    end
  end.

(** All four contract reads of [getUnderlyingAmount] resolve. *)
Definition readsResolve (p : Provider) (share : AztecAsset) : bool :=
  match read_asset p (erc20Address share) with
  | None => false
  | Some assetAddress =>
    match read_name p assetAddress, read_symbol p assetAddress,
          read_decimals p assetAddress with
    | Some _, Some _, Some _ => true
    | _, _, _ => false
    end
  end.

Definition getTermAPR (underlying : AztecAsset) (auxData inputValue : Z)
  : Completion (Promise Z) := notImplemented.

Definition getBorrowingFee (borrowAmount : Z) : Completion (Promise Z) :=
  notImplemented.

Definition getCurrentCR : Completion (Promise Z) := notImplemented.

Definition getUserDebtAndCollateral (tbAmount : Z) : Completion (Promise (Z * Z)) :=
  notImplemented.

Definition getCustomMaxPrice (slippage : Z) : Completion (Promise Z) :=
  notImplemented.

(** A provider that answers every read, and an asset of a given id. *)
Definition daiReads : Provider :=
  {| read_asset := fun _ => Some "0x6b175474e89094c44da98b954eedeac495271d0f";
     read_name := fun _ => Some "Dai Stablecoin";
     read_symbol := fun _ => Some "DAI";
     read_decimals := fun _ => Some 18 |}.

Definition sampleAsset (i : Z) : AztecAsset :=
  {| id := i; assetType := ERC20; erc20Address := "0x00" |}.

End Euler.

(** ** The form library used by the views and the account forms *)

Module Form.

(** Modelled from the spec: app/form.ts (imported as '../form' and
    '../../app') is not among the sources.  The specification speaks of
    "user-facing form messages" attached to the inputs of a "value bag";
    the names the sources import fix the rest: an input is an object with
    a [value] and optional [message] and [messageType] keys. *)
Inductive MessageType : Type := TEXT | WARNING | ERROR.

Inductive FormStatus : Type := ACTIVE | LOCKED | PROCESSING.

(** The [message]/[messageType] keys of an input object: absent from the
    object (as in the literal [{ value: v }]), present and [undefined]
    (after [clearMessage]), or set. *)
Inductive MessageField : Type :=
| Absent
| Cleared
| Message (text : string) (type : MessageType).

Record FormValue (A : Type) : Type := {
  value : A;
  field : MessageField;
}.
Arguments value {A} _.
Arguments field {A} _.

(** The object literal [{ value: v }]. *)
Definition input {A : Type} (v : A) : FormValue A :=
  {| value := v; field := Absent |}.

(** Modelled from the spec: [withError] and [withWarning] attach a
    message of that type to an input, [clearMessage] resets both keys. *)
Definition withError {A : Type} (i : FormValue A) (text : string) : FormValue A :=
  {| value := value i; field := Message text ERROR |}.

Definition withWarning {A : Type} (i : FormValue A) (text : string) : FormValue A :=
  {| value := value i; field := Message text WARNING |}.

Definition clearMessage {A : Type} (i : FormValue A) : FormValue A :=
  {| value := value i; field := Cleared |}.

(** [input.message] and [input.messageType] as a reader sees them. *)
Definition message {A : Type} (i : FormValue A) : option string :=
  match field i with Message text _ => Some text | _ => None end.

Definition messageType {A : Type} (i : FormValue A) : option MessageType :=
  match field i with Message _ type => Some type | _ => None end.

Definition isError (t : option MessageType) : bool :=
  match t with Some ERROR => true | _ => false end.

(** Modelled from the spec: [mergeValues] merges a partial form into a
    form key by key; the keys an input object carries replace the old
    ones ([{ ...old, ...new }]), which is what makes [clearMessage]
    necessary in the callers. *)
Definition mergeInput {A : Type} (old new : FormValue A) : FormValue A :=
  {| value := value new;
     field := match field new with Absent => field old | f => f end |}.

Definition mergeOpt {A : Type} (old : FormValue A) (new : option (FormValue A))
  : FormValue A :=
  match new with Some n => mergeInput old n | None => old end.

End Form.

(** ** The progress view *)

Module ProgressTemplate.
Import Form.

Record ProgressStep : Type := {
  status : Z;
  text : string;
}.

(** The props handed to one [TxProgress] element. *)
Record TxProgressProps : Type := {
  key : Z;
  tx_text : string;
  done : bool;
  isLoading : bool;
  failed : bool;
  inactive : bool;
}.

(** The props of [ProgressTemplate] that decide what is rendered;
    [formValid] is [isValidForm(form)]. *)
Record ProgressTemplateProps : Type := {
  steps : list ProgressStep;
  formValid : bool;
  currentStatus : Z;
  confirmStatus : Z;
  doneStatus : Z;
  prop_message : option string;
  prop_messageType : option MessageType;
}.

(** [!!message]: a string is truthy unless empty. *)
Definition truthy (m : option string) : bool :=
  match m with
  | Some s => negb (String.eqb s "")
  | None => false
  end.

Definition hasFailed (p : ProgressTemplateProps) : bool :=
  isError (prop_messageType p) && truthy (prop_message p).

Definition success (p : ProgressTemplateProps) : bool :=
  currentStatus p =? doneStatus p.

Definition expired (p : ProgressTemplateProps) : bool :=
  (currentStatus p =? confirmStatus p) && negb (formValid p).

Definition createProgress (p : ProgressTemplateProps) (text : string) (status : Z)
  : TxProgressProps :=
  {| key := status;
     tx_text := text;
     done := status <? currentStatus p;
     isLoading := (status =? currentStatus p) && negb (hasFailed p);
     failed := (status =? currentStatus p) && hasFailed p;
     inactive := status >? currentStatus p |}.

(** The middle block of the template. *)
Inductive ProgressBlock : Type :=
| DisclaimerBlock
| Steps (elements : list TxProgressProps).

Definition renderProgress (p : ProgressTemplateProps) : option ProgressBlock :=
  if negb (success p) && negb (expired p) then
    Some (if currentStatus p =? confirmStatus p then DisclaimerBlock
          else Steps (map (fun s => createProgress p (text s) (status s)) (steps p)))
  else None.

(** How many of the four flags of an element are set. *)
Definition flagsSet (e : TxProgressProps) : nat :=
  (Nat.b2n (done e) + Nat.b2n (isLoading e)
   + Nat.b2n (failed e) + Nat.b2n (inactive e))%nat.

(** A template at its second step, with an error message. *)
Definition sampleProps : ProgressTemplateProps :=
  {| steps := [ {| status := 3; text := "Validating" |};
                {| status := 4; text := "Migrating" |};
                {| status := 5; text := "Done" |} ];
     formValid := true;
     currentStatus := 4;
     confirmStatus := 2;
     doneStatus := 5;
     prop_message := Some "Something went wrong.";
     prop_messageType := Some ERROR |}.

End ProgressTemplate.

(** ** The account-migration form *)

Module MigrateForm.
Import Js Form.

Definition AppAssetId : Type := Z.

Record MigratingAsset : Type := {
  assetId : AppAssetId;
  fee : Z;
  totalFee : Z;
  values : list Z;
  migratableValues : list Z;
  migratedValues : list Z;
}.

(** [values.slice(i, j)] for [0 <= i <= j]. *)
Definition slice (i j : nat) (l : list Z) : list Z :=
  firstn (j - i) (skipn i l).

(** The slices [values.slice(i, i + 2)] visited by
    [for (let i = 0; i < values.length; i += 2)], in order
    (see [notePairs_slice]). *)
Fixpoint notePairs (values : list Z) : list (list Z) :=
  match values with
  | [] => []
  | [a] => [[a]]
  | a :: b :: rest => [a; b] :: notePairs rest
  end.

(** [noteValues.reduce((sum, value) => sum + value, 0n)] *)
Definition sumValues (noteValues : list Z) : Z :=
  fold_left (fun sum value => sum + value) noteValues 0.

(** Each slice whose sum exceeds the fee is pushed, whole. *)
Definition getMigratableValues (values : list Z) (fee : Z) : list Z :=
  flat_map (fun noteValues =>
              if sumValues noteValues >? fee then noteValues else [])
           (notePairs values).

Inductive MigrateStatus : Type :=
| CONNECT
| SYNC
| CONFIRM
| VALIDATE
| MIGRATE
| DONE.

(** The numeric value of an enum member. *)
Definition statusIndex (s : MigrateStatus) : Z :=
  match s with
  | CONNECT => 0
  | SYNC => 1
  | CONFIRM => 2
  | VALIDATE => 3
  | MIGRATE => 4
  | DONE => 5
  end.

Record MigrateFormValues : Type := {
  migratingAssets : FormValue (list MigratingAsset);
  status : MigrateStatus;
  submit : FormValue bool;
}.

(** A [Partial<MigrateFormValues>]: each key may be missing. *)
Record Changes : Type := {
  ch_migratingAssets : option (FormValue (list MigratingAsset));
  ch_status : option MigrateStatus;
  ch_submit : option (FormValue bool);
}.

(** A whole form passed where a partial one is expected. *)
Definition asChanges (v : MigrateFormValues) : Changes :=
  {| ch_migratingAssets := Some (migratingAssets v);
     ch_status := Some (status v);
     ch_submit := Some (submit v) |}.

(** Modelled from the spec: [mergeValues] of app/form.ts, at the three
    keys of this form ([status] is the object [{ value }]). *)
Definition mergeValues (v : MigrateFormValues) (c : Changes) : MigrateFormValues :=
  {| migratingAssets := mergeOpt (migratingAssets v) (ch_migratingAssets c);
     status := match ch_status c with Some s => s | None => status v end;
     submit := mergeOpt (submit v) (ch_submit c) |}.

(** Modelled from the spec: [isValidForm] of app/form.ts holds when no
    input of the form carries an error message. *)
Definition isValidForm (v : MigrateFormValues) : bool :=
  negb (isError (messageType (migratingAssets v)))
  && negb (isError (messageType (submit v))).

(** [assets] of app/assets is not among the sources: the ids of the
    supported assets are a parameter. *)
Definition initialMigrateFormValues (assets : list AppAssetId) : MigrateFormValues :=
  {| migratingAssets :=
       input (map (fun id => {| assetId := id; fee := 0; totalFee := 0;
                                values := []; migratableValues := [];
                                migratedValues := [] |}) assets);
     status := CONNECT;
     submit := input false |}.

Record AccountId : Type := {
  publicKey : Z;
  nonce : Z;
}.

Record KeyVault : Type := {
  accountPublicKey : Z;
  accountPrivateKey : Z;
}.

(** The wallet provider: the connected account and the hex string of
    [KeyVault.signingMessageV0(account, sdk)]. *)
Record Provider : Type := {
  account : string;
  signingMessage : string;
}.

(** The fields of a [MigrateForm] instance. *)
Record MigrateForm : Type := {
  userId : AccountId;
  formValues : MigrateFormValues;
  formStatus : FormStatus;
  destroyed : bool;
  keyVault : option KeyVault;
  provider : option Provider;
}.

Definition locked (f : MigrateForm) : bool :=
  match formStatus f with LOCKED | PROCESSING => true | ACTIVE => false end.

Definition processing (f : MigrateForm) : bool :=
  match formStatus f with PROCESSING => true | _ => false end.

Definition newMigrateForm (assets : list AppAssetId) (user : AccountId)
  (p : option Provider) : MigrateForm :=
  {| userId := user;
     formValues := initialMigrateFormValues assets;
     formStatus := ACTIVE;
     destroyed := false;
     keyVault := None;
     provider := p |}.

(** What the form does to the outside: the events it emits and the
    calls it makes into the provider, the key vault, the SDK, the account
    utilities and the database. *)
Inductive Event : Type :=
| UPDATED_FORM_STATUS (s : FormStatus)
| UPDATED_FORM_VALUES (v : MigrateFormValues)
| RemoveAllListeners
| ProviderOn
| ProviderOff
| CreateV0
| AddUser (privateKey nonce : Z)
| AwaitUserSynchronised (user : AccountId)
| GetSpendableNotes (asset : AppAssetId) (user : AccountId)
| GetFee (asset : AppAssetId)
| RemoveUser (user : AccountId)
| CreateTransferProof (asset : AppAssetId) (sender : AccountId) (amount fee : Z)
    (recipient : AccountId)
| SendProof (asset : AppAssetId) (amount : Z)
| AddMigratingTx (asset : AppAssetId) (amount : Z) (user : AccountId).

(** The form, the number of awaits so far and the events so far. *)
Record World : Type := {
  form : MigrateForm;
  clock : nat;
  log : list Event;
}.

(** The synchronous public methods that may run while an operation of
    the form is suspended at an [await].  An asynchronous operation
    started while another is suspended is not modelled. *)
Inductive ExtCall : Type := ExtDestroy | ExtUnlock | ExtLock.

(** The collaborators, as seen from the form: whether the call awaited
    at a given tick rejects, what it answers, and which public methods
    are called on the form while that await is pending. *)
Record Env : Type := {
  rejects : nat -> bool;
  feeQuote : nat -> AppAssetId -> Z;
  spendableNotes : nat -> AppAssetId -> list Z;
  createdKeyVault : nat -> KeyVault;
  interrupts : nat -> list ExtCall;
}.

(** Operations of the form: they read and update the world and either
    return or throw. *)
Definition M (A : Type) : Type := World -> Completion A * World.

Definition ret {A : Type} (a : A) : M A := fun w => (Return a, w).

Definition throw {A : Type} (e : Exception) : M A := fun w => (Throw e, w).

Definition bind {A B : Type} (c : M A) (k : A -> M B) : M B :=
  fun w =>
    match c w with
    | (Return a, w') => k a w'
    | (Throw e, w') => (Throw e, w')
    end.

Notation "'do' x <- c ; k" := (bind c (fun x => k))
  (at level 10, x name, c at level 100, k at level 200, only parsing).

(** [try { c } catch (e) { h e }] *)
Definition tryCatch {A : Type} (c : M A) (h : Exception -> M A) : M A :=
  fun w =>
    match c w with
    | (Return a, w') => (Return a, w')
    | (Throw e, w') => h e w'
    end.

Definition getForm : M MigrateForm := fun w => (Return (form w), w).

Definition emit (e : Event) : M unit :=
  fun w => (Return tt, {| form := form w; clock := clock w; log := log w ++ [e] |}).

Definition setForm (f : MigrateForm) : M unit :=
  fun w => (Return tt, {| form := f; clock := clock w; log := log w |}).

Definition withValues (f : MigrateForm) (v : MigrateFormValues) : MigrateForm :=
  {| userId := userId f; formValues := v; formStatus := formStatus f;
     destroyed := destroyed f; keyVault := keyVault f; provider := provider f |}.

Definition withFormStatus (f : MigrateForm) (s : FormStatus) : MigrateForm :=
  {| userId := userId f; formValues := formValues f; formStatus := s;
     destroyed := destroyed f; keyVault := keyVault f; provider := provider f |}.

Definition withDestroyed (f : MigrateForm) : MigrateForm :=
  {| userId := userId f; formValues := formValues f; formStatus := formStatus f;
     destroyed := true; keyVault := keyVault f; provider := provider f |}.

Definition withKeyVault (f : MigrateForm) (k : KeyVault) : MigrateForm :=
  {| userId := userId f; formValues := formValues f; formStatus := formStatus f;
     destroyed := destroyed f; keyVault := Some k; provider := provider f |}.

Definition updateFormStatus (s : FormStatus) : M unit :=
  do f <- getForm;
  do _ <- setForm (withFormStatus f s);
  emit (UPDATED_FORM_STATUS s).

Definition updateFormValues (changes : Changes) : M unit :=
  do f <- getForm;
  let v := mergeValues (formValues f) changes in
  do _ <- setForm (withValues f v);
  emit (UPDATED_FORM_VALUES v).

(** The object literals [{ status: { value: s } }] and [{ submit: i }]. *)
Definition statusChange (s : MigrateStatus) : Changes :=
  {| ch_migratingAssets := None; ch_status := Some s; ch_submit := None |}.

Definition submitChange (i : FormValue bool) : Changes :=
  {| ch_migratingAssets := None; ch_status := None; ch_submit := Some i |}.

Definition prompt (text : string) : M unit :=
  updateFormValues (submitChange (withWarning (input true) text)).

Definition providerOff : M unit :=
  do f <- getForm;
  match provider f with Some _ => emit ProviderOff | None => ret tt end.

Definition providerOn : M unit :=
  do f <- getForm;
  match provider f with Some _ => emit ProviderOn | None => ret tt end.

Definition destroy : M unit :=
  do f <- getForm;
  if processing f then
    throw (Error "Cannot destroy a form while it is being processed.")
  else
    do _ <- setForm (withDestroyed f);
    do _ <- emit RemoveAllListeners;
    providerOff.

Definition unlock : M unit := updateFormStatus ACTIVE.

Definition lock : M unit := updateFormStatus LOCKED.

(** A public method called from outside while the form is suspended:
    what it throws goes to its own caller. *)
Definition runExt (w : World) (c : ExtCall) : World :=
  match c with
  | ExtDestroy => snd (destroy w)
  | ExtUnlock => snd (unlock w)
  | ExtLock => snd (lock w)
  end.

Section Operations.

Variable env : Env.

(** [await call]: the call is made, the form is suspended while the
    calls of [interrupts] run, and the call resolves or rejects. *)
Definition await (call : Event) : M unit :=
  fun w =>
    let t := clock w in
    let w1 := {| form := form w; clock := S t; log := log w ++ [call] |} in
    let w2 := fold_left runExt (interrupts env t) w1 in
    if rejects env t then (Throw (Rejection "call rejected"), w2)
    else (Return tt, w2).

(** An awaited call that answers: the answer is the one of its tick. *)
Definition awaitAnswer {A : Type} (call : Event) (answer : nat -> A) : M A :=
  fun w => (do _ <- await call; ret (answer (clock w))) w.

Definition sdk_getFee (id : AppAssetId) : M Z :=
  awaitAnswer (GetFee id) (fun t => feeQuote env t id).

Definition sdk_getSpendableNotes (id : AppAssetId) (user : AccountId) : M (list Z) :=
  awaitAnswer (GetSpendableNotes id user) (fun t => spendableNotes env t id).

(** [notes.sort((a, b) => a.value < b.value ? 1 : -1)]: the larger
    value first.  Notes are represented by their values. *)
Fixpoint insertNote (x : Z) (sorted : list Z) : list Z :=
  match sorted with
  | [] => [x]
  | y :: rest => if y <? x then x :: sorted else y :: insertNote x rest
  end.

Definition sortNotes (notes : list Z) : list Z :=
  fold_right insertNote [] notes.

(** [this.keyVault!]: destructuring [undefined] is a [TypeError]. *)
Definition requireKeyVault : M KeyVault :=
  do f <- getForm;
  match keyVault f with
  | Some k => ret k
  | None => throw (TypeError "Cannot destructure property of undefined")
  end.

Definition prevUserIdOf (f : MigrateForm) (k : KeyVault) : AccountId :=
  {| publicKey := accountPublicKey k; nonce := nonce (userId f) - 1 |}.

(** The body of the loop of [validateValues]; [break] ends it. *)
Fixpoint validateAssets (assets : list MigratingAsset) (form : MigrateFormValues)
  : M MigrateFormValues :=
  match assets with
  | [] => ret form
  | asset :: rest =>
    do quote <- sdk_getFee (assetId asset);
    if quote >? fee asset then
      ret {| migratingAssets := withError (migratingAssets form) "Insufficient fee.";
             status := status form;
             submit := submit form |}
    else validateAssets rest form
  end.

(** [MigrateForm.validateValues] *)
Definition validateValues : M MigrateFormValues :=
  do f <- getForm;
  let form := formValues f in
  validateAssets (value (migratingAssets form)) form.

(** The callback mapped over the assets in [syncBalance]. *)
Definition syncAsset (prevUserId : AccountId) (asset : MigratingAsset)
  : M MigratingAsset :=
  do notes <- sdk_getSpendableNotes (assetId asset) prevUserId;
  do quote <- sdk_getFee (assetId asset);
  let values := sortNotes notes in
  let migratable := getMigratableValues values quote in
  ret {| assetId := assetId asset;
         fee := quote;
         totalFee := quote * ((Z.of_nat (length migratable) + 1) / 2);
         values := values;
         migratableValues := migratable;
         migratedValues := [] |}.

(** [Promise.all(assets.map(async asset => ...))], the callbacks taken
    one after the other in the order of the list. *)
Fixpoint syncAssets (prevUserId : AccountId) (assets : list MigratingAsset)
  : M (list MigratingAsset) :=
  match assets with
  | [] => ret []
  | asset :: rest =>
    do synced <- syncAsset prevUserId asset;
    do others <- syncAssets prevUserId rest;
    ret (synced :: others)
  end.

(** [migratingAssets.some(a => a.migratableValues.length)] *)
Definition someMigratable (assets : list MigratingAsset) : bool :=
  existsb (fun a => negb (Nat.eqb (length (migratableValues a)) 0)) assets.

(** [MigrateForm.syncBalance] *)
Definition syncBalance : M unit :=
  do _ <- updateFormStatus PROCESSING;
  do _ <- updateFormValues (statusChange SYNC);
  do k <- requireKeyVault;
  do f <- getForm;
  let prevUserId := prevUserIdOf f k in
  do _ <- await (AddUser (accountPrivateKey k) (nonce prevUserId));
  do _ <- await (AwaitUserSynchronised prevUserId);
  do f <- getForm;
  do synced <- syncAssets prevUserId (value (migratingAssets (formValues f)));
  do _ <- (if negb (someMigratable synced) then
             (* Nothing to migrate. *)
             await (RemoveUser prevUserId)
           else ret tt);
  do _ <- updateFormStatus LOCKED;
  updateFormValues {| ch_migratingAssets := Some (input synced);
                      ch_status := Some CONFIRM;
                      ch_submit := None |}.

(** The closure [updateMigratingAssets] of [migrateNotes]. *)
Definition updateMigratingAssets (id : AppAssetId) (value : Z) : M unit :=
  do f <- getForm;
  let updated :=
    map (fun asset =>
           if negb (assetId asset =? id) then asset
           else {| assetId := assetId asset;
                   fee := fee asset;
                   totalFee := totalFee asset;
                   values := values asset;
                   migratableValues := migratableValues asset;
                   migratedValues := migratedValues asset ++ [value] |})
        (Form.value (migratingAssets (formValues f))) in
  updateFormValues {| ch_migratingAssets := Some (input updated);
                      ch_status := None;
                      ch_submit := None |}.

(** How a loop of [migrateNotes] ends: it runs to its end, or the
    [return] of the destroyed-flag check leaves the method. *)
Inductive LoopExit : Type := Completed | Returned.

(** The inner loop, over the slices of [migratableValues]. *)
Fixpoint migratePairs (prevUserId : AccountId) (asset : MigratingAsset)
  (pairs : list (list Z)) : M LoopExit :=
  match pairs with
  | [] => ret Completed
  | noteValues :: rest =>
    do f <- getForm;
    if destroyed f then ret Returned
    else
      let amount := sumValues noteValues - fee asset in
      (* Create private send proof. *)
      do _ <- await (CreateTransferProof (assetId asset) prevUserId amount
                       (fee asset) (userId f));
      do _ <- await (SendProof (assetId asset) amount);
      do _ <- await (AddMigratingTx (assetId asset) amount (userId f));
      do _ <- updateMigratingAssets (assetId asset) amount;
      migratePairs prevUserId asset rest
  end.

(** The outer loop, over the assets read before the loop. *)
Fixpoint migrateAssets (prevUserId : AccountId) (assets : list MigratingAsset)
  : M LoopExit :=
  match assets with
  | [] => ret Completed
  | asset :: rest =>
    do exit <- migratePairs prevUserId asset (notePairs (migratableValues asset));
    match exit with
    | Returned => ret Returned
    | Completed => migrateAssets prevUserId rest
    end
  end.

(** [MigrateForm.migrateNotes] *)
Definition migrateNotes : M unit :=
  do _ <- updateFormValues (statusChange MIGRATE);
  do f <- getForm;
  let assets := value (migratingAssets (formValues f)) in
  do k <- requireKeyVault;
  let prevUserId := prevUserIdOf f k in
  do exit <- migrateAssets prevUserId assets;
  match exit with
  | Returned => ret tt
  | Completed =>
    do _ <- await (RemoveUser prevUserId);
    updateFormValues (statusChange DONE)
  end.

(** [MigrateForm.submit]; the name [submit] is taken by the input of
    the form. *)
Definition submitForm : M unit :=
  do f <- getForm;
  if processing f then
    (* Duplicated call to MigrateForm.submit(). *)
    ret tt
  else
    do _ <- updateFormStatus PROCESSING;
    do _ <- updateFormValues {| ch_migratingAssets := None;
                                ch_status := Some VALIDATE;
                                ch_submit := Some (clearMessage (input true)) |};
    do validated <- validateValues;
    if negb (isValidForm validated) then
      do _ <- updateFormValues
                (asChanges
                   (mergeValues validated
                      {| ch_migratingAssets := None;
                         ch_status := Some CONFIRM;
                         ch_submit := Some (clearMessage (input false)) |}));
      updateFormStatus LOCKED
    else
      do _ <- tryCatch migrateNotes
                (fun e =>
                   updateFormValues
                     (submitChange
                        (withError (input false)
                           "Something went wrong. This shouldn't happen.")));
      updateFormStatus LOCKED.

(** [signingMessage.slice(-4)] *)
Definition lastFour (s : string) : string :=
  String.substring (String.length s - 4) 4 s.

Definition promptText (signingMessage : string) : string :=
  String.append
    "To check the balances in your old account, please sign the following hash in your wallet: 0x"
    (String.append (String.substring 0 6 signingMessage)
       (String.append "..." (lastFour signingMessage))).

Definition isConnect (s : MigrateStatus) : bool :=
  match s with CONNECT => true | _ => false end.

(** [MigrateForm.onProviderStateChange] *)
Definition onProviderStateChange : M unit :=
  do f <- getForm;
  if negb (isConnect (status (formValues f))) then ret tt
  else
    do _ <- updateFormValues (submitChange (clearMessage (input false)));
    match provider f with
    | None => ret tt
    | Some p =>
      do _ <- prompt (promptText (signingMessage p));
      tryCatch
        (do t <- (fun w => (Return (clock w), w));
         do _ <- await CreateV0;
         do f <- getForm;
         do _ <- setForm (withKeyVault f (createdKeyVault env t));
         do f <- getForm;
         if negb (destroyed f) && isConnect (status (formValues f)) then
           do _ <- providerOff;
           syncBalance
         else ret tt)
        (fun e =>
           do f <- getForm;
           if isConnect (status (formValues f)) then
             updateFormValues
               (submitChange (withError (input false) "Message signature denied."))
           else ret tt)
    end.

(** [init] does not await [onProviderStateChange]; the world after
    [init] is the one in which that promise has settled. *)
Definition init : M unit :=
  do _ <- providerOn;
  onProviderStateChange.

(** [MigrateForm.changeProvider] *)
Definition withProvider (f : MigrateForm) (p : option Provider) : MigrateForm :=
  {| userId := userId f; formValues := formValues f; formStatus := formStatus f;
     destroyed := destroyed f; keyVault := keyVault f; provider := p |}.

Definition changeProvider (p : option Provider) : M unit :=
  do f <- getForm;
  if negb (isConnect (status (formValues f))) then ret tt
  else
    do _ <- providerOff;
    do f <- getForm;
    do _ <- setForm (withProvider f p);
    do _ <- providerOn;
    onProviderStateChange.

(** [MigrateForm.changeValues] *)
Definition changeValues (changes : Changes) : M unit :=
  do f <- getForm;
  if locked f then
    (* Cannot change form values while it is locked. *)
    ret tt
  else updateFormValues changes.

End Operations.

(** *** Sessions

    The operations of the form that the specification names, and the
    synchronous public methods, as a caller may invoke them one after the
    other, each against what the collaborators answer at that time.
    [changeValues], by which a caller overwrites the values of an unlocked
    form, and [changeProvider] are not part of a session. *)
Inductive Op : Type :=
| OpInit
| OpProviderStateChange
| OpSubmit
| OpDestroy
| OpUnlock
| OpLock.

Definition perform (env : Env) (o : Op) : M unit :=
  match o with
  | OpInit => init env
  | OpProviderStateChange => onProviderStateChange env
  | OpSubmit => submitForm env
  | OpDestroy => destroy
  | OpUnlock => unlock
  | OpLock => lock
  end.

Fixpoint performAll (script : list (Env * Op)) (w : World) : World :=
  match script with
  | [] => w
  | (env, o) :: rest => performAll rest (snd (perform env o w))
  end.

(** A freshly constructed form. *)
Definition newWorld (assets : list AppAssetId) (user : AccountId)
  (p : option Provider) : World :=
  {| form := newMigrateForm assets user p; clock := 0; log := [] |}.

(** The states a form can be in: those a session leads to. *)
Definition reachable (w : World) : Prop :=
  exists assets user p script, w = performAll script (newWorld assets user p).

(** *** What is observed of a world *)

Definition statusOf (w : World) : MigrateStatus := status (formValues (form w)).

Definition assetsOf (w : World) : list MigratingAsset :=
  value (migratingAssets (formValues (form w))).


(** The form values emitted with [UPDATED_FORM_VALUES], in order. *)
Definition emittedValues (l : list Event) : list MigrateFormValues :=
  flat_map (fun e => match e with UPDATED_FORM_VALUES v => [v] | _ => [] end) l.

(** The events a public method called during an await can add. *)
Definition isExtEvent (e : Event) : Prop :=
  match e with
  | UPDATED_FORM_STATUS _ | RemoveAllListeners | ProviderOff => True
  | _ => False
  end.

(** A transfer proof is created or sent. *)
Definition isProofEvent (e : Event) : bool :=
  match e with
  | CreateTransferProof _ _ _ _ _ | SendProof _ _ => true
  | _ => false
  end.

Definition isRemoveUser (e : Event) : bool :=
  match e with RemoveUser _ => true | _ => false end.

Definition noProofEvent (e : Event) : Prop := isProofEvent e = false.

Definition notRemoveUser (e : Event) : Prop := isRemoveUser e = false.


Definition isGetFee (e : Event) : Prop :=
  match e with GetFee _ => True | _ => False end.

(** The calls of the SYNC step other than the removal of the user. *)
Definition isSyncCall (e : Event) : Prop :=
  match e with
  | AddUser _ _ | AwaitUserSynchronised _ | GetSpendableNotes _ _ | GetFee _ => True
  | _ => False
  end.

(** The calls of one iteration of the migration loop. *)
Definition isSendCall (e : Event) : Prop :=
  match e with
  | CreateTransferProof _ _ _ _ _ | SendProof _ _ | AddMigratingTx _ _ _ => True
  | _ => False
  end.

(** The events of the migration loop. *)
Definition isLoopEvent (e : Event) : Prop :=
  match e with
  | CreateTransferProof _ _ _ _ _ | SendProof _ _ | AddMigratingTx _ _ _
  | UPDATED_FORM_VALUES _ => True
  | _ => isExtEvent e
  end.

(** *** What is assumed of the collaborators *)

(** No call awaited at one of the [n] ticks from [t] on rejects. *)
Definition calmFor (env : Env) (t n : nat) : Prop :=
  forall t', (t <= t' < t + n)%nat -> rejects env t' = false.

(** Whether some fee query of [validateValues], the [k]-th being made
    at tick [t + k] for the [k]-th asset, quotes more than the asset's
    stored fee. *)
Fixpoint insufficientFee (env : Env) (t : nat) (assets : list MigratingAsset)
  : bool :=
  match assets with
  | [] => false
  | asset :: rest =>
    (feeQuote env t (assetId asset) >? fee asset)
    || insufficientFee env (S t) rest
  end.

(** *** The bookkeeping of a migration *)

(** The amount sent for one slice of an asset's migratable values. *)
Definition amountOf (a : MigratingAsset) (noteValues : list Z) : Z :=
  sumValues noteValues - fee a.

(** The sends [migrateNotes] makes when none fails, in order. *)
Definition sendsOf (a : MigratingAsset) : list (AppAssetId * Z) :=
  map (fun noteValues => (assetId a, amountOf a noteValues))
      (notePairs (migratableValues a)).

Definition allSends (assets : list MigratingAsset) : list (AppAssetId * Z) :=
  flat_map sendsOf assets.

(** What [updateMigratingAssets] does to the assets of the form. *)
Definition recordSend (assets : list MigratingAsset) (send : AppAssetId * Z)
  : list MigratingAsset :=
  map (fun asset =>
         if negb (assetId asset =? fst send) then asset
         else {| assetId := assetId asset;
                 fee := fee asset;
                 totalFee := totalFee asset;
                 values := values asset;
                 migratableValues := migratableValues asset;
                 migratedValues := migratedValues asset ++ [snd send] |})
      assets.





(** The form values after [updateFormValues({ migratingAssets: { value } })]. *)
Definition withAssets (v : MigrateFormValues) (assets : list MigratingAsset)
  : MigrateFormValues :=
  {| migratingAssets := mergeInput (migratingAssets v) (input assets);
     status := status v;
     submit := submit v |}.


(** What [validateValues] returns when a quote is too high. *)
Definition withInsufficientFee (v : MigrateFormValues) : MigrateFormValues :=
  {| migratingAssets := withError (migratingAssets v) "Insufficient fee.";
     status := status v;
     submit := submit v |}.

(** The values [updateMigratingAssets] emits while the sends [sends]
    are recorded one after the other, starting from the assets [assets]. *)
Fixpoint emissionsOf (v : MigrateFormValues) (assets : list MigratingAsset)
  (sends : list (AppAssetId * Z)) : list MigrateFormValues :=
  match sends with
  | [] => []
  | send :: rest =>
    let assets' := recordSend assets send in
    withAssets v assets' :: emissionsOf v assets' rest
  end.

(** *** The stretches of [submit] and of [syncBalance] *)

(** [submit] up to validation. *)
Definition submitStart : M unit :=
  do _ <- updateFormStatus PROCESSING;
  updateFormValues {| ch_migratingAssets := None;
                      ch_status := Some VALIDATE;
                      ch_submit := Some (clearMessage (input true)) |}.

(** [submit] after a validation that failed. *)
Definition submitInvalid (validated : MigrateFormValues) : M unit :=
  do _ <- updateFormValues
            (asChanges
               (mergeValues validated
                  {| ch_migratingAssets := None;
                     ch_status := Some CONFIRM;
                     ch_submit := Some (clearMessage (input false)) |}));
  updateFormStatus LOCKED.

(** [submit] after a validation that passed. *)
Definition submitMigrate (env : Env) : M unit :=
  do _ <- tryCatch (migrateNotes env)
            (fun e =>
               updateFormValues
                 (submitChange
                    (withError (input false)
                       "Something went wrong. This shouldn't happen.")));
  updateFormStatus LOCKED.

(** The first two updates of [syncBalance]. *)
Definition syncStart : M unit :=
  do _ <- updateFormStatus PROCESSING;
  updateFormValues (statusChange SYNC).

(** Its last two updates. *)
Definition syncFinish (synced : list MigratingAsset) : M unit :=
  do _ <- updateFormStatus LOCKED;
  updateFormValues {| ch_migratingAssets := Some (input synced);
                      ch_status := Some CONFIRM;
                      ch_submit := None |}.

(** *** A program logic for the operations *)

(** [hoare P c Q]: started in a world of [P], the operation [c] ends,
    whether it returns or throws, in a world of [Q]. *)
Definition hoare {A : Type} (P : World -> Prop) (c : M A) (Q : World -> Prop)
  : Prop :=
  forall w, P w -> Q (snd (c w)).

(** An operation that cannot throw. *)
Definition total {A : Type} (c : M A) : Prop :=
  forall w, exists a, fst (c w) = Return a.

(** Invariants. *)
Abbreviation preserves I c := (hoare I c I).

(** A property of the form values alone. *)
Definition onValues (J : MigrateFormValues -> Prop) (w : World) : Prop :=
  J (formValues (form w)).

Definition statusIn (S : MigrateStatus -> Prop) : World -> Prop :=
  onValues (fun v => S (status v)).

(** What one await of the call [call] can change: the values, the user,
    the key vault and the provider stay; the form status may change and the
    form may get destroyed. *)
Record Suspended (call : Event) (w w' : World) : Prop := {
  susp_values : formValues (form w') = formValues (form w);
  susp_userId : userId (form w') = userId (form w);
  susp_keyVault : keyVault (form w') = keyVault (form w);
  susp_provider : provider (form w') = provider (form w);
  susp_destroyed : destroyed (form w) = true -> destroyed (form w') = true;
  susp_clock : clock w' = S (clock w);
  susp_log : exists ext, log w' = log w ++ call :: ext /\ Forall isExtEvent ext;
}.

(** What the public methods called during an await can change. *)
Record ExtRun (w w' : World) : Prop := {
  ext_values : formValues (form w') = formValues (form w);
  ext_userId : userId (form w') = userId (form w);
  ext_keyVault : keyVault (form w') = keyVault (form w);
  ext_provider : provider (form w') = provider (form w);
  ext_destroyed : destroyed (form w) = true -> destroyed (form w') = true;
  ext_clock : clock w' = clock w;
  ext_log : exists ext, log w' = log w ++ ext /\ Forall isExtEvent ext;
}.

(** What a stretch of awaits of calls of the class [C] can change. *)
Record Frame (C : Event -> Prop) (w w' : World) : Prop := {
  frame_values : formValues (form w') = formValues (form w);
  frame_userId : userId (form w') = userId (form w);
  frame_keyVault : keyVault (form w') = keyVault (form w);
  frame_provider : provider (form w') = provider (form w);
  frame_destroyed : destroyed (form w) = true -> destroyed (form w') = true;
  frame_clock : (clock w <= clock w')%nat;
  frame_log : exists new,
      log w' = log w ++ new /\ Forall (fun e => C e \/ isExtEvent e) new;
}.

(** What a run of the loop over the sends [sends] does: it records the
    first [n] of them, one emission each, and stops. *)
Definition Migrated (sends : list (AppAssetId * Z)) (w : World)
  (r : Completion LoopExit) (w' : World) : Prop :=
  exists n : nat,
    (n <= length sends)%nat
    /\ formValues (form w')
       = withAssets (formValues (form w))
           (fold_left recordSend (firstn n sends) (assetsOf w))
    /\ userId (form w') = userId (form w)
    /\ keyVault (form w') = keyVault (form w)
    /\ provider (form w') = provider (form w)
    /\ (destroyed (form w) = true -> destroyed (form w') = true)
    /\ (clock w <= clock w')%nat
    /\ (exists new,
           log w' = log w ++ new
           /\ Forall isLoopEvent new
           /\ emittedValues new
              = emissionsOf (formValues (form w)) (assetsOf w) (firstn n sends))
    /\ (r = Return Completed -> n = length sends).

(** What the form may turn into while an operation is suspended. *)
Definition FormStep (f f' : MigrateForm) : Prop :=
  formValues f' = formValues f
  /\ userId f' = userId f
  /\ keyVault f' = keyVault f
  /\ provider f' = provider f
  /\ (destroyed f = true -> destroyed f' = true).

(** The form satisfies [F] and every event since the log was [l0]
    satisfies [Q]. *)
Definition sessionInv (F : MigrateForm -> Prop) (Q : Event -> Prop)
  (l0 : list Event) (w : World) : Prop :=
  F (form w) /\ exists new, log w = l0 ++ new /\ Forall Q new.


(** The form has nothing to migrate and has left [CONNECT]. *)
Definition nothingToMigrate (f : MigrateForm) : Prop :=
  status (formValues f) <> CONNECT
  /\ someMigratable (value (migratingAssets (formValues f))) = false.

(** *** Sample collaborators and forms *)

Definition sampleUser : AccountId := {| publicKey := 7; nonce := 1 |}.

Definition walletProvider : Provider :=
  {| account := "0x3fab184622dc19b6109349b94811493bf2a45362";
     signingMessage := "deadbeefcafe" |}.

(** Three notes of asset 0, none of asset 1; the fee is 1; no call
    rejects; nobody interferes. *)
Definition envCalm : Env :=
  {| rejects := fun _ => false;
     feeQuote := fun _ _ => 1;
     spendableNotes := fun _ id => if id =? 0 then [5; 10; 3] else [];
     createdKeyVault := fun _ => {| accountPublicKey := 7; accountPrivateKey := 8 |};
     interrupts := fun _ => [] |}.

(** As [envCalm], but the call awaited at tick [t] rejects. *)
Definition envRejectAt (t : nat) : Env :=
  {| rejects := fun t' => Nat.eqb t' t;
     feeQuote := feeQuote envCalm;
     spendableNotes := spendableNotes envCalm;
     createdKeyVault := createdKeyVault envCalm;
     interrupts := interrupts envCalm |}.

(** As [envCalm], but the fee has risen to 2. *)
Definition envFeeUp : Env :=
  {| rejects := rejects envCalm;
     feeQuote := fun _ _ => 2;
     spendableNotes := spendableNotes envCalm;
     createdKeyVault := createdKeyVault envCalm;
     interrupts := interrupts envCalm |}.

(** As [envCalm], but the account holds no note. *)
Definition envEmpty : Env :=
  {| rejects := rejects envCalm;
     feeQuote := feeQuote envCalm;
     spendableNotes := fun _ _ => [];
     createdKeyVault := createdKeyVault envCalm;
     interrupts := interrupts envCalm |}.

(** A new form for the assets 0 and 1. *)
Definition sampleWorld : World := newWorld [0; 1] sampleUser (Some walletProvider).

(** The form once a wallet has signed, before the balances are
    synchronised. *)
Definition connectedWorld : World :=
  {| form := withKeyVault (newMigrateForm [0; 1] sampleUser (Some walletProvider))
               {| accountPublicKey := 7; accountPrivateKey := 8 |};
     clock := 1;
     log := [] |}.

(** The form once the balances are synchronised. *)
Definition syncedWorld : World := performAll [(envCalm, OpInit)] sampleWorld.


End MigrateForm.

(** * Properties *)

(** Calls into collaborators outside the repository (contract reads,
    the wallet SDK, the database) may reject.  Where a statement below
    describes what an operation does past such a call, it says so by a
    hypothesis that the call resolves. *)

(** ** The Euler redemption adapter *)

Module EulerSpec.
Import Js Euler.

(** Truncation toward zero: the quotient times the divisor is the
    multiple of the divisor nearest to the dividend on the side of zero,
    and the quotient never has the sign opposite to the dividend's. *)
Lemma divBigInt_truncates (a b : Z) :
  0 < b ->
  Z.abs (divBigInt a b * b) <= Z.abs a < Z.abs (divBigInt a b * b) + b
  /\ 0 <= divBigInt a b * a.
Proof.
  intros Hb. unfold divBigInt.
  pose proof (Z.quot_rem' a b) as Hqr.
  rewrite (Z.mul_comm b) in Hqr.
  destruct (Z.le_gt_cases 0 a) as [Ha | Ha].
  - pose proof (Z.rem_bound_pos a b Ha Hb) as Hr.
    assert (Hq : 0 <= a ÷ b) by (apply Z.quot_pos; lia).
    assert (Hm : 0 <= a ÷ b * b) by (apply Z.mul_nonneg_nonneg; lia).
    split; [lia | apply Z.mul_nonneg_nonneg; lia].
  - pose proof (Z.rem_bound_pos (- a) b ltac:(lia) Hb) as Hr.
    rewrite Z.rem_opp_l in Hr by lia.
    assert (Hq : 0 <= (- a) ÷ b) by (apply Z.quot_pos; lia).
    rewrite Z.quot_opp_l in Hq by lia.
    assert (Hm : 0 <= - (a ÷ b) * b) by (apply Z.mul_nonneg_nonneg; lia).
    assert (Hn : 0 <= - (a ÷ b) * - a) by (apply Z.mul_nonneg_nonneg; lia).
    split; lia.
Qed.

Lemma minTokenOut_outside (i : Z) :
  i ∉ minTokenOutIds -> minTokenOut !! i = None.
Proof.
  unfold minTokenOutIds, minTokenOut. intros Hi.
  rewrite !not_elem_of_cons in Hi.
  rewrite !lookup_insert_ne by lia.
  apply lookup_empty.
Qed.

Lemma minTokenOut_inside (i : Z) :
  i ∈ minTokenOutIds ->
  exists bound, minTokenOut !! i = Some bound
    /\ (bound = 99 * 10 ^ 16 \/ bound = 96 * 10 ^ 16).
Proof.
  unfold minTokenOutIds. rewrite !elem_of_cons, elem_of_nil.
  intros H. repeat destruct H as [-> | H]; try tauto;
  eexists; (split; [vm_compute; reflexivity
                   | (left; reflexivity) || (right; reflexivity)]).
Qed.

(** C6. For all asset arguments, every [auxData] and every
    [inputValue], [getExpectedOutput] resolves to a one-element array
    whose element is the quotient of [inputValue * auxData] by [10^18]
    truncated toward zero; the result does not depend on the assets and no
    contract read is issued. *)
Theorem getExpectedOutput_quotient
  (inputAssetA inputAssetB outputAssetA outputAssetB : AztecAsset)
  (auxData inputValue : Z) :
  exists q : Z,
    getExpectedOutput inputAssetA inputAssetB outputAssetA outputAssetB
      auxData inputValue = (Resolved [q], [])
    /\ q = Z.quot (inputValue * auxData) (10 ^ 18)
    /\ Z.abs (q * 10 ^ 18) <= Z.abs (inputValue * auxData)
         < Z.abs (q * 10 ^ 18) + 10 ^ 18
    /\ 0 <= q * (inputValue * auxData)
    /\ forall a b c d : AztecAsset,
         getExpectedOutput a b c d auxData inputValue
         = getExpectedOutput inputAssetA inputAssetB outputAssetA outputAssetB
             auxData inputValue.
Proof.
  exists (divBigInt (inputValue * auxData) (10 ^ 18)).
  destruct (divBigInt_truncates (inputValue * auxData) (10 ^ 18)) as [Hb Hs];
    [lia |].
  repeat split; try reflexivity; try apply Hb; apply Hs.
Qed.

(** C7. Each of the nine unimplemented methods throws
    [Error("Method not implemented.")] on every input: the call completes
    with that exception and with no value. *)
Theorem unimplemented_methods_throw :
  (forall interactionNonce inputValue,
      getInteractionPresentValue interactionNonce inputValue
      = Throw (Error "Method not implemented."))
  /\ (forall interactionNonce,
         getExpiration interactionNonce = Throw (Error "Method not implemented."))
  /\ (forall interactionNonce,
         hasFinalised interactionNonce = Throw (Error "Method not implemented."))
  /\ (forall interactionNonce,
         getInteractionAPR interactionNonce = Throw (Error "Method not implemented."))
  /\ (forall underlying auxData inputValue,
         getTermAPR underlying auxData inputValue
         = Throw (Error "Method not implemented."))
  /\ (forall borrowAmount,
         getBorrowingFee borrowAmount = Throw (Error "Method not implemented."))
  /\ getCurrentCR = Throw (Error "Method not implemented.")
  /\ (forall tbAmount,
         getUserDebtAndCollateral tbAmount = Throw (Error "Method not implemented."))
  /\ (forall slippage,
         getCustomMaxPrice slippage = Throw (Error "Method not implemented.")).
Proof. repeat split. Qed.

Lemma getUnderlyingAmount_resolves (p : Provider) (share : AztecAsset)
  (amount bound : Z) :
  minTokenOut !! id share = Some bound ->
  readsResolve p share = true ->
  exists u calls,
    getUnderlyingAmount p share amount = (Resolved u, calls)
    /\ Euler.amount u = Z.quot (amount * bound) (10 ^ 18).
Proof.
  intros Hb Hr. unfold readsResolve in Hr.
  unfold getUnderlyingAmount, minTokenOut_at. rewrite Hb. cbn [mulBigInt].
  destruct (read_asset p (erc20Address share)) as [assetAddress|]; [|discriminate].
  destruct (read_name p assetAddress); [|discriminate].
  destruct (read_symbol p assetAddress); [|discriminate].
  destruct (read_decimals p assetAddress); [|discriminate].
  eexists _, _. split; reflexivity.
Qed.

Lemma getUnderlyingAmount_undefined (p : Provider) (share : AztecAsset)
  (amount : Z) :
  minTokenOut !! id share = None ->
  (forall u calls, getUnderlyingAmount p share amount <> (Resolved u, calls))
  /\ (forall assetAddress,
         read_asset p (erc20Address share) = Some assetAddress ->
         exists msg calls,
           getUnderlyingAmount p share amount = (Rejected (TypeError msg), calls)).
Proof.
  intros Hn. unfold getUnderlyingAmount, minTokenOut_at. rewrite Hn.
  cbn [mulBigInt]. split.
  - intros u calls. destruct (read_asset p (erc20Address share)); discriminate.
  - intros assetAddress ->. eexists _, _. reflexivity.
Qed.

(** C8. For an asset id among the six keys of [minTokenOut] the lookup
    is a bigint, [99 * 10^16] or [96 * 10^16]; [getAuxData] resolves to
    the array holding it, and [getUnderlyingAmount] resolves, with the
    amount scaled by it, whenever its four contract reads resolve.  For
    any other id the lookup is [undefined]: [getAuxData] resolves to an
    array that holds no bigint, the product in [getUnderlyingAmount] is a
    [TypeError], and [getUnderlyingAmount] never resolves. *)
Theorem minTokenOut_domain (i : Z) :
  (i ∈ minTokenOutIds ->
   exists bound,
     minTokenOut !! i = Some bound
     /\ (bound = 99 * 10 ^ 16 \/ bound = 96 * 10 ^ 16)
     /\ (forall a b out d, id out = i ->
           getAuxData a b out d = (Resolved [BigInt bound], []))
     /\ (forall p share amount, id share = i ->
           readsResolve p share = true ->
           exists u calls,
             getUnderlyingAmount p share amount = (Resolved u, calls)
             /\ Euler.amount u = Z.quot (amount * bound) (10 ^ 18)))
  /\ (i ∉ minTokenOutIds ->
      minTokenOut !! i = None
      /\ (forall a b out d, id out = i ->
            exists vs, getAuxData a b out d = (Resolved vs, [])
                       /\ existsb isBigInt vs = false)
      /\ (forall amount,
            exists msg, mulBigInt amount (minTokenOut_at i) = Throw (TypeError msg))
      /\ (forall p share amount, id share = i ->
            (forall u calls,
                getUnderlyingAmount p share amount <> (Resolved u, calls))
            /\ (forall assetAddress,
                   read_asset p (erc20Address share) = Some assetAddress ->
                   exists msg calls,
                     getUnderlyingAmount p share amount
                     = (Rejected (TypeError msg), calls)))).
Proof.
  split.
  - intros Hin. destruct (minTokenOut_inside i Hin) as (bound & Hb & Hv).
    exists bound. repeat split; try assumption.
    + intros a b out d <-. unfold getAuxData, minTokenOut_at. now rewrite Hb.
    + intros p share amount <- Hr. now apply getUnderlyingAmount_resolves.
  - intros Hout. pose proof (minTokenOut_outside i Hout) as Hn.
    split; [assumption | split; [| split]].
    + intros a b out d <-. eexists. split; [reflexivity |].
      unfold minTokenOut_at. now rewrite Hn.
    + intros amount. unfold minTokenOut_at. rewrite Hn. eexists. reflexivity.
    + intros p share amount <-. now apply getUnderlyingAmount_undefined.
Qed.

(** Asset 7 (weDAI) is in the table, asset 3 is not. *)
Lemma minTokenOut_domain_witness :
  (exists u calls,
      getUnderlyingAmount daiReads (sampleAsset 7) (10 ^ 18)
      = (Resolved u, calls)
      /\ Euler.amount u = 96 * 10 ^ 16)
  /\ minTokenOut !! 3 = None.
Proof.
  split.
  - destruct (proj1 (minTokenOut_domain 7)) as (bound & Hb & _ & _ & Hu).
    + unfold minTokenOutIds. rewrite !elem_of_cons. tauto.
    + destruct (Hu daiReads (sampleAsset 7) (10 ^ 18) eq_refl eq_refl)
        as (u & calls & Hr & Ha).
      exists u, calls. split; [exact Hr |].
      rewrite Ha. vm_compute in Hb. injection Hb as <-. reflexivity.
  - apply (proj2 (minTokenOut_domain 3)).
    unfold minTokenOutIds. rewrite !not_elem_of_cons, elem_of_nil.
    repeat split; try lia; tauto.
Defined.

End EulerSpec.

(** ** The progress view *)

Module ProgressTemplateSpec.
Import Form ProgressTemplate.

Lemma isError_iff (t : option MessageType) :
  isError t = true <-> t = Some ERROR.
Proof. destruct t as [[]|]; cbn; split; congruence. Qed.

Lemma truthy_iff (m : option string) :
  truthy m = true <-> exists s, m = Some s /\ s <> "".
Proof.
  destruct m as [s|]; cbn.
  - rewrite negb_true_iff, String.eqb_neq. split.
    + intros Hs. exists s. split; [reflexivity | assumption].
    + intros (s' & [= <-] & Hs). assumption.
  - split; [discriminate | intros (s & Hs & _); discriminate].
Qed.

Lemma hasFailed_iff (p : ProgressTemplateProps) :
  hasFailed p = true <->
  prop_messageType p = Some ERROR
  /\ exists m, prop_message p = Some m /\ m <> "".
Proof.
  unfold hasFailed. now rewrite andb_true_iff, isError_iff, truthy_iff.
Qed.

(** C9. Every element that [ProgressTemplate] renders for a step has
    exactly one of its four flags set: [done] iff the step's status is
    below the current one, [failed] iff it is the current one and an error
    message is present, [isLoading] iff it is the current one and no error
    message is present, [inactive] iff it is above the current one. *)
Theorem progress_flags_exclusive (p : ProgressTemplateProps)
  (elements : list TxProgressProps) (e : TxProgressProps) :
  renderProgress p = Some (Steps elements) ->
  e ∈ elements ->
  exists s : ProgressStep,
    s ∈ steps p
    /\ e = createProgress p (text s) (status s)
    /\ flagsSet e = 1%nat
    /\ (done e = true <-> status s < currentStatus p)
    /\ (failed e = true <->
        status s = currentStatus p
        /\ prop_messageType p = Some ERROR
        /\ exists m, prop_message p = Some m /\ m <> "")
    /\ (isLoading e = true <->
        status s = currentStatus p
        /\ ~ (prop_messageType p = Some ERROR
              /\ exists m, prop_message p = Some m /\ m <> ""))
    /\ (inactive e = true <-> status s > currentStatus p).
Proof.
  unfold renderProgress. intros Hr He.
  destruct (negb (success p) && negb (expired p)); [| discriminate].
  destruct (currentStatus p =? confirmStatus p); [discriminate |].
  injection Hr as <-.
  apply list_elem_of_fmap in He. destruct He as (s & -> & Hs).
  exists s. split; [assumption | split; [reflexivity |]].
  pose proof (hasFailed_iff p) as Hf.
  cbn [createProgress done isLoading failed inactive].
  rewrite !andb_true_iff, negb_true_iff, Z.eqb_eq, Z.ltb_lt, Z.gtb_gt.
  rewrite <- Hf, not_true_iff_false.
  split; [| tauto].
  unfold flagsSet. cbn [createProgress done isLoading failed inactive].
  destruct (Z.ltb_spec (status s) (currentStatus p));
    destruct (Z.eqb_spec (status s) (currentStatus p));
    destruct (Z.gtb_spec (status s) (currentStatus p));
    try lia; destruct (hasFailed p); reflexivity.
Qed.

(** The step at the current status, with an error message, has failed. *)
Lemma progress_flags_exclusive_witness :
  exists s : ProgressStep,
    s ∈ steps sampleProps
    /\ flagsSet (createProgress sampleProps (text s) (status s)) = 1%nat
    /\ failed (createProgress sampleProps (text s) (status s)) = true.
Proof.
  destruct (progress_flags_exclusive sampleProps
              (map (fun s => createProgress sampleProps (text s) (status s))
                   (steps sampleProps))
              (createProgress sampleProps "Migrating" 4))
    as (s & Hs & He & Hone & _ & Hfailed & _).
  - reflexivity.
  - cbn. rewrite !elem_of_cons. right. left. reflexivity.
  - exists s. rewrite <- He. split; [exact Hs | split; [exact Hone |]].
    reflexivity.
Defined.

End ProgressTemplateSpec.

(** ** The account-migration form *)

Module MigrateFormSpec.
Import Js Form MigrateForm.


(** *** A program logic for the operations *)

Lemma hoare_weaken {A} (P P' Q Q' : World -> Prop) (c : M A) :
  hoare P' c Q' -> (forall w, P w -> P' w) -> (forall w, Q' w -> Q w) ->
  hoare P c Q.
Proof. unfold hoare. auto. Qed.

Lemma hoare_ret {A} (P : World -> Prop) (a : A) : hoare P (ret a) P.
Proof. intros w Hw. exact Hw. Qed.

Lemma hoare_throw {A} (P : World -> Prop) (e : Exception) :
  hoare P (@throw A e) P.
Proof. intros w Hw. exact Hw. Qed.

Lemma hoare_bind {A B} (P R Q : World -> Prop) (c : M A) (k : A -> M B) :
  hoare P c R ->
  (forall w, R w -> Q w) ->
  (forall a, hoare R (k a) Q) ->
  hoare P (bind c k) Q.
Proof.
  intros Hc HRQ Hk w Hw. unfold bind. specialize (Hc w Hw).
  destruct (c w) as [[a | e] w']; cbn in *.
  - apply Hk, Hc.
  - apply HRQ, Hc.
Qed.

Lemma hoare_seq {A B} (P R Q : World -> Prop) (c : M A) (k : A -> M B) :
  total c ->
  hoare P c R ->
  (forall a, hoare R (k a) Q) ->
  hoare P (bind c k) Q.
Proof.
  intros Ht Hc Hk w Hw. unfold bind. specialize (Hc w Hw).
  destruct (Ht w) as [a Ha].
  destruct (c w) as [[a' | e] w']; cbn in *; [| discriminate].
  apply Hk, Hc.
Qed.

Lemma total_updateFormStatus s : total (updateFormStatus s).
Proof. intros w. exists tt. reflexivity. Qed.

Lemma total_updateFormValues changes : total (updateFormValues changes).
Proof. intros w. exists tt. reflexivity. Qed.

Lemma hoare_tryCatch {A} (P R Q : World -> Prop) (c : M A)
  (h : Exception -> M A) :
  hoare P c R ->
  (forall w, R w -> Q w) ->
  (forall e, hoare R (h e) Q) ->
  hoare P (tryCatch c h) Q.
Proof.
  intros Hc HRQ Hh w Hw. unfold tryCatch. specialize (Hc w Hw).
  destruct (c w) as [[a | e] w']; cbn in *.
  - apply HRQ, Hc.
  - apply Hh, Hc.
Qed.

Lemma hoare_getForm {A} (P Q : World -> Prop) (k : MigrateForm -> M A) :
  (forall f, hoare (fun w => P w /\ form w = f) (k f) Q) ->
  hoare P (bind getForm k) Q.
Proof. intros Hk w Hw. apply (Hk (form w) w). split; [exact Hw | reflexivity]. Qed.

Lemma hoare_if {A} (P Q : World -> Prop) (b : bool) (c1 c2 : M A) :
  (b = true -> hoare P c1 Q) -> (b = false -> hoare P c2 Q) ->
  hoare P (if b then c1 else c2) Q.
Proof. destruct b; auto. Qed.

Lemma preserves_bind {A B} (I : World -> Prop) (c : M A) (k : A -> M B) :
  preserves I c -> (forall a, preserves I (k a)) -> preserves I (bind c k).
Proof. intros Hc Hk. apply (hoare_bind I I I); auto. Qed.

Lemma preserves_tryCatch {A} (I : World -> Prop) (c : M A) (h : Exception -> M A) :
  preserves I c -> (forall e, preserves I (h e)) -> preserves I (tryCatch c h).
Proof. intros Hc Hh. apply (hoare_tryCatch I I I); auto. Qed.

(** *** What an await can change *)

Lemma ExtRun_refl w : ExtRun w w.
Proof.
  split; try reflexivity; try tauto.
  exists []. split; [now rewrite app_nil_r | constructor].
Qed.

Lemma ExtRun_trans w1 w2 w3 : ExtRun w1 w2 -> ExtRun w2 w3 -> ExtRun w1 w3.
Proof.
  intros [] []. split; try congruence; try tauto.
  destruct ext_log0 as (e1 & H1 & F1), ext_log1 as (e2 & H2 & F2).
  exists (e1 ++ e2). split.
  - rewrite H2, H1. now rewrite <- app_assoc.
  - apply Forall_app. split; assumption.
Qed.

Lemma runExt_ExtRun w c : ExtRun w (runExt w c).
Proof.
  destruct c; cbn.
  - unfold destroy, bind, getForm. destruct (processing (form w)); cbn.
    + apply ExtRun_refl.
    + unfold providerOff, bind, getForm; cbn.
      destruct (provider (form w)) eqn:Hp; cbn; split; cbn; try reflexivity; try tauto.
      * rewrite <- app_assoc. eexists. split; [reflexivity |]. repeat constructor.
      * eexists. split; [reflexivity |]. repeat constructor.
  - split; cbn; try reflexivity; try tauto.
    eexists. split; [reflexivity |]. repeat constructor.
  - split; cbn; try reflexivity; try tauto.
    eexists. split; [reflexivity |]. repeat constructor.
Qed.

Lemma runExts_ExtRun cs w : ExtRun w (fold_left runExt cs w).
Proof.
  revert w. induction cs as [| c cs IH]; intros w; cbn.
  - apply ExtRun_refl.
  - eapply ExtRun_trans; [apply runExt_ExtRun | apply IH].
Qed.

Lemma await_Suspended env call w :
  Suspended call w (snd (await env call w))
  /\ fst (await env call w)
     = if rejects env (clock w) then Throw (Rejection "call rejected")
       else Return tt.
Proof.
  unfold await.
  set (w1 := {| form := form w; clock := S (clock w); log := log w ++ [call] |}).
  pose proof (runExts_ExtRun (interrupts env (clock w)) w1) as [].
  split; [| destruct (rejects env (clock w)); reflexivity].
  assert (Hs : snd (if rejects env (clock w)
                    then (Throw (A:=unit) (Rejection "call rejected"),
                          fold_left runExt (interrupts env (clock w)) w1)
                    else (Return tt, fold_left runExt (interrupts env (clock w)) w1))
               = fold_left runExt (interrupts env (clock w)) w1)
    by (destruct (rejects env (clock w)); reflexivity).
  rewrite Hs. split; try assumption.
  destruct ext_log0 as (ext & Hl & Hf). exists ext. split; [| assumption].
  rewrite Hl. cbn. now rewrite <- app_assoc.
Qed.

(** *** What a stretch of awaits can change *)

Lemma Frame_refl C w : Frame C w w.
Proof.
  split; try reflexivity; try tauto.
  exists []. split; [now rewrite app_nil_r | constructor].
Qed.

Lemma Frame_trans C w1 w2 w3 : Frame C w1 w2 -> Frame C w2 w3 -> Frame C w1 w3.
Proof.
  intros [] []. split; try congruence; try tauto; [lia |].
  destruct frame_log0 as (e1 & H1 & F1), frame_log1 as (e2 & H2 & F2).
  exists (e1 ++ e2). split.
  - rewrite H2, H1. now rewrite <- app_assoc.
  - apply Forall_app. split; assumption.
Qed.

Lemma Frame_weaken (C C' : Event -> Prop) w w' :
  (forall e, C e -> C' e) -> Frame C w w' -> Frame C' w w'.
Proof.
  intros HC []. split; try assumption.
  destruct frame_log0 as (new & Hl & Hf). exists new. split; [assumption |].
  eapply Forall_impl; [exact Hf |]. cbn. intros e [He | He]; auto.
Qed.

Lemma Suspended_Frame (C : Event -> Prop) call w w' :
  C call -> Suspended call w w' -> Frame C w w'.
Proof.
  intros HC []. split; try assumption; [lia |].
  destruct susp_log0 as (ext & Hl & Hf). exists (call :: ext). split; [assumption |].
  constructor; [left; assumption |].
  eapply Forall_impl; [exact Hf |]. cbn. auto.
Qed.

Ltac frame_of Hs := eapply Suspended_Frame; [| exact Hs]; cbn; auto.

(** An awaited call, case by case. *)
Lemma await_cases env call w :
  exists w', Suspended call w w'
    /\ (rejects env (clock w) = true
        /\ await env call w = (Throw (Rejection "call rejected"), w')
        \/ rejects env (clock w) = false
           /\ await env call w = (Return tt, w')).
Proof.
  destruct (await_Suspended env call w) as [Hs Hr].
  exists (snd (await env call w)). split; [exact Hs |].
  destruct (await env call w) as [r w'] eqn:Ha. cbn in *.
  destruct (rejects env (clock w)); [left | right]; subst r; auto.
Qed.

Lemma awaitAnswer_cases {A} env call (answer : nat -> A) w :
  exists w', Suspended call w w'
    /\ (rejects env (clock w) = true
        /\ awaitAnswer env call answer w = (Throw (Rejection "call rejected"), w')
        \/ rejects env (clock w) = false
           /\ awaitAnswer env call answer w = (Return (answer (clock w)), w')).
Proof.
  destruct (await_cases env call w) as (w' & Hs & [[Hr Ha] | [Hr Ha]]);
    exists w'; (split; [exact Hs |]); [left | right]; (split; [exact Hr |]);
    unfold awaitAnswer, bind; rewrite Ha; reflexivity.
Qed.

(** *** Validation *)

Lemma validateAssets_spec env assets v w :
  exists r w',
    validateAssets env assets v w = (r, w')
    /\ Frame isGetFee w w'
    /\ (forall v', r = Return v' -> v' = v \/ v' = withInsufficientFee v)
    /\ (calmFor env (clock w) (length assets) ->
        r = Return (if insufficientFee env (clock w) assets
                    then withInsufficientFee v else v)).
Proof.
  revert w. induction assets as [| asset rest IH]; intros w.
  - exists (Return v), w.
    split; [reflexivity | split; [apply Frame_refl | split]].
    + intros v' [= <-]. auto.
    + intros _. reflexivity.
  - cbn [validateAssets insufficientFee]. unfold bind, sdk_getFee.
    destruct (awaitAnswer_cases env (GetFee (assetId asset))
                (fun t => feeQuote env t (assetId asset)) w)
      as (w1 & Hs & [[Hr Ha] | [Hr Ha]]); rewrite Ha.
    + eexists _, _. split; [reflexivity |].
      split; [frame_of Hs |].
      split; [discriminate |].
      intros Hcalm. rewrite Hcalm in Hr; [discriminate |]. cbn. lia.
    + destruct (feeQuote env (clock w) (assetId asset) >? fee asset) eqn:Hq.
      * eexists _, _. split; [reflexivity |].
        split; [frame_of Hs |].
        split; [intros v' [= <-]; auto | reflexivity].
      * destruct (IH w1) as (r & w' & He & Hf & Hv & Hc).
        exists r, w'. split; [exact He |].
        split; [eapply Frame_trans;
                [frame_of Hs | exact Hf] |].
        split; [exact Hv |].
        intros Hcalm. cbn [orb]. rewrite <- (susp_clock _ _ _ Hs). apply Hc.
        intros t' Ht. apply Hcalm. rewrite (susp_clock _ _ _ Hs) in Ht.
        cbn. lia.
Qed.

(** [submit], stretch by stretch. *)
Lemma submitForm_unfold env w :
  submitForm env w
  = if processing (form w) then (Return tt, w)
    else
      let w1 := snd (submitStart w) in
      match validateAssets env (assetsOf w1) (formValues (form w1)) w1 with
      | (Throw e, w2) => (Throw e, w2)
      | (Return validated, w2) =>
        if negb (isValidForm validated) then submitInvalid validated w2
        else submitMigrate env w2
      end.
Proof.
  unfold submitForm, bind, getForm.
  destruct (processing (form w)); [reflexivity |].
  unfold validateValues, assetsOf, bind, getForm. cbn.
  destruct (validateAssets _ _ _ _) as [[v | e] w2];
    [destruct (isValidForm v) |]; reflexivity.
Qed.

(** *** The migration loop *)

#[local] Arguments emittedValues : simpl never.
#[local] Arguments emissionsOf : simpl nomatch.

Lemma withAssets_same v : withAssets v (value (migratingAssets v)) = v.
Proof. destruct v as [[assets f] st sb]. reflexivity. Qed.

Lemma emittedValues_app l1 l2 :
  emittedValues (l1 ++ l2) = emittedValues l1 ++ emittedValues l2.
Proof. unfold emittedValues. apply flat_map_app. Qed.


Lemma Migrated_none sends w r :
  (r = Return Completed -> sends = []) -> Migrated sends w r w.
Proof.
  intros Hr. exists 0%nat. cbn. unfold assetsOf. rewrite withAssets_same.
  repeat (split; [first [reflexivity | lia | tauto] |]).
  split.
  - exists []. rewrite app_nil_r. repeat split. constructor.
  - intros H. now rewrite (Hr H).
Qed.

Lemma updateMigratingAssets_eq id amount w :
  updateMigratingAssets id amount w
  = (Return tt,
     {| form := withValues (form w)
                  (withAssets (formValues (form w))
                     (recordSend (assetsOf w) (id, amount)));
        clock := clock w;
        log := log w ++ [UPDATED_FORM_VALUES
                           (withAssets (formValues (form w))
                              (recordSend (assetsOf w) (id, amount)))] |}).
Proof. reflexivity. Qed.

Lemma migratePairs_cons env prev a noteValues rest w :
  migratePairs env prev a (noteValues :: rest) w
  = if destroyed (form w) then (Return Returned, w)
    else
      bind (await env (CreateTransferProof (assetId a) prev (amountOf a noteValues)
                         (fee a) (userId (form w))))
        (fun _ =>
           bind (await env (SendProof (assetId a) (amountOf a noteValues)))
             (fun _ =>
                bind (await env (AddMigratingTx (assetId a) (amountOf a noteValues)
                                   (userId (form w))))
                  (fun _ =>
                     bind (updateMigratingAssets (assetId a) (amountOf a noteValues))
                       (fun _ => migratePairs env prev a rest)))) w.
Proof.
  cbn [migratePairs]. unfold bind at 1, getForm.
  destruct (destroyed (form w)); reflexivity.
Qed.

Lemma emittedValues_calls (C : Event -> Prop) new :
  (forall v, ~ C (UPDATED_FORM_VALUES v)) ->
  Forall (fun e => C e \/ isExtEvent e) new ->
  emittedValues new = [].
Proof.
  intros HC. induction 1 as [| e l He _ IH]; [reflexivity |].
  destruct e; try exact IH.
  destruct He as [He | He]; [destruct (HC _ He) | destruct He].
Qed.

(** A rejected await inside an iteration: nothing is recorded. *)
Lemma Migrated_frame sends w w' r :
  Frame isSendCall w w' ->
  (r = Return Completed -> sends = []) ->
  Migrated sends w r w'.
Proof.
  intros [] Hr. exists 0%nat. cbn. unfold assetsOf.
  rewrite withAssets_same.
  repeat (split; [first [assumption | lia] |]).
  split; [| intros H; now rewrite (Hr H)].
  destruct frame_log0 as (new & Hl & Hf). exists new.
  split; [assumption |]. split.
  - eapply Forall_impl; [exact Hf |]. cbn. intros x [Hx | Hx].
    + destruct x; cbn in *; tauto.
    + destruct x; cbn in *; tauto.
  - eapply emittedValues_calls; [| exact Hf]. intros v [].
Qed.

Lemma emissionsOf_withAssets v assets assets' sends :
  emissionsOf (withAssets v assets) assets' sends = emissionsOf v assets' sends.
Proof.
  revert assets'. induction sends as [| s sends IH]; intros assets'; cbn.
  - reflexivity.
  - now rewrite IH.
Qed.

Lemma emissionsOf_app v assets sends1 sends2 :
  emissionsOf v assets (sends1 ++ sends2)
  = emissionsOf v assets sends1
    ++ emissionsOf v (fold_left recordSend sends1 assets) sends2.
Proof.
  revert assets. induction sends1 as [| s sends1 IH]; intros assets; cbn.
  - reflexivity.
  - now rewrite IH.
Qed.

(** One more iteration in front of a run of the loop. *)
Lemma Migrated_step send sends w w3 r w' :
  Frame isSendCall w w3 ->
  Migrated sends
    {| form := withValues (form w3)
                 (withAssets (formValues (form w3)) (recordSend (assetsOf w3) send));
       clock := clock w3;
       log := log w3 ++ [UPDATED_FORM_VALUES
                           (withAssets (formValues (form w3))
                              (recordSend (assetsOf w3) send))] |}
    r w' ->
  Migrated (send :: sends) w r w'.
Proof.
  intros [] (n & Hn & Hv & Hu & Hk & Hp & Hd & Hc & (new & Hl & Hf & He) & Hr).
  cbn in *. unfold assetsOf in *. cbn in *.
  rewrite frame_values0 in *.
  exists (S n). cbn.
  split; [lia |]. split; [exact Hv |].
  split; [congruence |]. split; [congruence |]. split; [congruence |].
  split; [tauto |]. split; [lia |]. split.
  - destruct frame_log0 as (newF & HlF & HfF).
    exists (newF ++ UPDATED_FORM_VALUES
                      (withAssets (formValues (form w))
                         (recordSend (value (migratingAssets (formValues (form w))))
                            send)) :: new).
    split; [rewrite Hl, HlF, <- !app_assoc; reflexivity |]. split.
    + apply Forall_app. split.
      * eapply Forall_impl; [exact HfF |]. cbn. intros x [Hx | Hx];
          destruct x; cbn in *; tauto.
      * constructor; [exact I | exact Hf].
    + rewrite emittedValues_app.
      rewrite (emittedValues_calls isSendCall newF); [| intros v [] | exact HfF].
      cbn [app]. unfold emittedValues at 1. cbn [flat_map app].
      fold (emittedValues new). rewrite He. cbn. f_equal. apply emissionsOf_withAssets.
  - intros H. now rewrite (Hr H).
Qed.

Lemma migratePairs_Migrated env prev a pairs w :
  exists r w',
    migratePairs env prev a pairs w = (r, w')
    /\ Migrated (map (fun noteValues => (assetId a, amountOf a noteValues)) pairs)
         w r w'.
Proof.
  revert w. induction pairs as [| noteValues rest IH]; intros w.
  - exists (Return Completed), w. split; [reflexivity |].
    apply Migrated_none. reflexivity.
  - rewrite migratePairs_cons.
    destruct (destroyed (form w)).
    { eexists _, _. split; [reflexivity |]. apply Migrated_none. discriminate. }
    unfold bind at 1.
    destruct (await_cases env (CreateTransferProof (assetId a) prev
                                 (amountOf a noteValues) (fee a) (userId (form w))) w)
      as (w1 & Hs1 & [[_ Ha] | [_ Ha]]); rewrite Ha.
    { eexists _, _. split; [reflexivity |].
      apply Migrated_frame; [frame_of Hs1 | discriminate]. }
    unfold bind at 1.
    destruct (await_cases env (SendProof (assetId a) (amountOf a noteValues)) w1)
      as (w2 & Hs2 & [[_ Hb] | [_ Hb]]); rewrite Hb.
    { eexists _, _. split; [reflexivity |].
      apply Migrated_frame; [| discriminate].
      eapply Frame_trans; [frame_of Hs1 | frame_of Hs2]. }
    unfold bind at 1.
    destruct (await_cases env (AddMigratingTx (assetId a) (amountOf a noteValues)
                                 (userId (form w))) w2)
      as (w3 & Hs3 & [[_ Hc] | [_ Hc]]); rewrite Hc.
    { eexists _, _. split; [reflexivity |].
      apply Migrated_frame; [| discriminate].
      eapply Frame_trans; [frame_of Hs1 |].
      eapply Frame_trans; [frame_of Hs2 | frame_of Hs3]. }
    unfold bind at 1. rewrite updateMigratingAssets_eq.
    match goal with |- context [migratePairs _ _ _ _ ?w4] =>
      destruct (IH w4) as (r & w' & He & Hm) end.
    exists r, w'. split; [exact He |].
    cbn [map]. eapply Migrated_step; [| exact Hm].
    eapply Frame_trans; [frame_of Hs1 |].
    eapply Frame_trans; [frame_of Hs2 | frame_of Hs3].
Qed.

Lemma Migrated_prefix sends1 sends2 w r w' :
  Migrated sends1 w r w' -> r <> Return Completed ->
  Migrated (sends1 ++ sends2) w r w'.
Proof.
  intros (n & Hn & Hv & Hu & Hk & Hp & Hd & Hc & (new & Hl & Hf & He) & Hr) Hne.
  exists n. rewrite firstn_app, length_app.
  replace (n - length sends1)%nat with 0%nat by lia.
  cbn [firstn]. rewrite app_nil_r.
  split; [lia |]. repeat (split; [assumption |]).
  split; [| intros H; contradiction].
  exists new. auto.
Qed.

Lemma Migrated_app sends1 sends2 w w1 r w' :
  Migrated sends1 w (Return Completed) w1 ->
  Migrated sends2 w1 r w' ->
  Migrated (sends1 ++ sends2) w r w'.
Proof.
  intros (n1 & Hn1 & Hv1 & Hu1 & Hk1 & Hp1 & Hd1 & Hc1 & (new1 & Hl1 & Hf1 & He1) & Hr1)
         (n2 & Hn2 & Hv2 & Hu2 & Hk2 & Hp2 & Hd2 & Hc2 & (new2 & Hl2 & Hf2 & He2) & Hr2).
  specialize (Hr1 eq_refl). subst n1. rewrite firstn_all in *.
  assert (Ha1 : assetsOf w1 = fold_left recordSend sends1 (assetsOf w)).
  { unfold assetsOf at 1. rewrite Hv1. reflexivity. }
  exists (length sends1 + n2)%nat.
  rewrite firstn_app_2, fold_left_app, length_app.
  split; [lia |]. split.
  { rewrite Hv2, Hv1, Ha1. reflexivity. }
  split; [congruence |]. split; [congruence |]. split; [congruence |].
  split; [tauto |]. split; [lia |]. split.
  - exists (new1 ++ new2). split; [rewrite Hl2, Hl1, <- app_assoc; reflexivity |].
    split; [apply Forall_app; split; assumption |].
    rewrite emittedValues_app, emissionsOf_app, He1, He2, Hv1, Ha1.
    now rewrite emissionsOf_withAssets.
  - intros H. rewrite (Hr2 H). reflexivity.
Qed.

Lemma migrateAssets_Migrated env prev assets w :
  exists r w',
    migrateAssets env prev assets w = (r, w')
    /\ Migrated (allSends assets) w r w'.
Proof.
  revert w. induction assets as [| a rest IH]; intros w.
  - exists (Return Completed), w. split; [reflexivity |].
    apply Migrated_none. reflexivity.
  - cbn [migrateAssets allSends flat_map]. unfold bind.
    destruct (migratePairs_Migrated env prev a (notePairs (migratableValues a)) w)
      as (r1 & w1 & He1 & Hm1).
    rewrite He1. fold (sendsOf a) in Hm1.
    destruct r1 as [[|] | e].
    + destruct (IH w1) as (r & w' & He & Hm).
      exists r, w'. split; [exact He |].
      eapply Migrated_app; eassumption.
    + eexists _, _. split; [reflexivity |].
      apply Migrated_prefix; [assumption | discriminate].
    + eexists _, _. split; [reflexivity |].
      apply Migrated_prefix; [assumption | discriminate].
Qed.




(** With nothing migratable, the loops do nothing. *)
Lemma migrateAssets_nothing env prev assets w :
  someMigratable assets = false ->
  migrateAssets env prev assets w = (Return Completed, w).
Proof.
  induction assets as [| a rest IH]; cbn; [reflexivity |].
  rewrite orb_false_iff, negb_false_iff, Nat.eqb_eq.
  intros [Ha Hr]. apply length_zero_iff_nil in Ha. rewrite Ha. cbn.
  unfold bind. cbn. apply IH, Hr.
Qed.

(** *** Invariants of the form values *)

Lemma preserves_getForm {A} (I : World -> Prop) (k : MigrateForm -> M A) :
  (forall f, preserves I (k f)) -> preserves I (bind getForm k).
Proof. intros Hk w Hw. apply (Hk (form w) w Hw). Qed.

Lemma preserves_await J env call : preserves (onValues J) (await env call).
Proof.
  intros w Hw. destruct (await_Suspended env call w) as [[] _].
  unfold onValues. now rewrite susp_values0.
Qed.

Lemma preserves_awaitAnswer {A} J env call (answer : nat -> A) :
  preserves (onValues J) (awaitAnswer env call answer).
Proof.
  intros w Hw. unfold awaitAnswer.
  apply (preserves_bind (onValues J)); [apply preserves_await | | exact Hw].
  intros _. apply hoare_ret.
Qed.

Lemma preserves_updateFormStatus J s : preserves (onValues J) (updateFormStatus s).
Proof. intros w Hw. exact Hw. Qed.

Lemma preserves_requireKeyVault (I : World -> Prop) : preserves I requireKeyVault.
Proof.
  intros w Hw. unfold requireKeyVault, bind, getForm.
  destruct (keyVault (form w)); exact Hw.
Qed.

Lemma preserves_providerOff J : preserves (onValues J) providerOff.
Proof.
  intros w Hw. unfold providerOff, bind, getForm.
  destruct (provider (form w)); exact Hw.
Qed.

Lemma preserves_providerOn J : preserves (onValues J) providerOn.
Proof.
  intros w Hw. unfold providerOn, bind, getForm.
  destruct (provider (form w)); exact Hw.
Qed.

Lemma hoare_updateFormValues (J J' : MigrateFormValues -> Prop) changes :
  (forall v, J v -> J' (mergeValues v changes)) ->
  hoare (onValues J) (updateFormValues changes) (onValues J').
Proof. intros HJ w Hw. apply HJ, Hw. Qed.

Lemma preserves_validateAssets J env assets v :
  preserves (onValues J) (validateAssets env assets v).
Proof.
  intros w Hw.
  destruct (validateAssets_spec env assets v w) as (r & w' & He & [] & _).
  rewrite He. unfold onValues. cbn. now rewrite frame_values0.
Qed.

Lemma preserves_syncAssets J env prev assets :
  preserves (onValues J) (syncAssets env prev assets).
Proof.
  induction assets as [| a rest IH]; cbn [syncAssets].
  - apply hoare_ret.
  - apply preserves_bind.
    + unfold syncAsset. apply preserves_bind; [apply preserves_awaitAnswer |].
      intros notes. apply preserves_bind; [apply preserves_awaitAnswer |].
      intros quote. apply hoare_ret.
    + intros synced. apply preserves_bind; [exact IH |].
      intros others. apply hoare_ret.
Qed.

Lemma preserves_migrateAssets J env prev assets :
  (forall v assets', J v -> J (withAssets v assets')) ->
  preserves (onValues J) (migrateAssets env prev assets).
Proof.
  intros HJ w Hw.
  destruct (migrateAssets_Migrated env prev assets w)
    as (r & w' & He & n & _ & Hv & _).
  rewrite He. unfold onValues. cbn. rewrite Hv. apply HJ, Hw.
Qed.

(** *** Where the status can go *)

Lemma migrateNotes_status env :
  hoare (fun _ => True) (migrateNotes env)
    (statusIn (fun s => s = MIGRATE \/ s = DONE)).
Proof.
  unfold migrateNotes.
  eapply hoare_bind with (R := statusIn (fun s => s = MIGRATE \/ s = DONE)).
  - eapply hoare_weaken;
      [apply (hoare_updateFormValues (fun _ => True)
                (fun v => status v = MIGRATE \/ status v = DONE)) | |];
      cbn; auto.
  - auto.
  - intros _. apply preserves_getForm. intros f.
    apply preserves_bind; [apply preserves_requireKeyVault |]. intros k.
    apply preserves_bind.
    + apply preserves_migrateAssets. cbn. auto.
    + intros [|]; [| apply hoare_ret].
      apply preserves_bind; [apply preserves_await |]. intros _.
      apply hoare_updateFormValues. cbn. auto.
Qed.

Lemma syncBalance_status env :
  hoare (fun _ => True) (syncBalance env)
    (statusIn (fun s => s = SYNC \/ s = CONFIRM)).
Proof.
  unfold syncBalance.
  eapply hoare_seq with (R := fun _ => True);
    [apply total_updateFormStatus | intros w _; exact I | intros _].
  eapply hoare_seq with (R := statusIn (fun s => s = SYNC \/ s = CONFIRM));
    [apply total_updateFormValues | | intros _].
  { eapply hoare_weaken;
      [apply (hoare_updateFormValues (fun _ => True)
                (fun v => status v = SYNC \/ status v = CONFIRM)) | |];
      cbn; auto. }
  apply preserves_bind; [apply preserves_requireKeyVault |]. intros k.
  apply preserves_getForm. intros f.
  apply preserves_bind; [apply preserves_await |]. intros _.
  apply preserves_bind; [apply preserves_await |]. intros _.
  apply preserves_getForm. intros f'.
  apply preserves_bind; [apply preserves_syncAssets |]. intros synced.
  apply preserves_bind.
  { destruct (negb (someMigratable synced)); [apply preserves_await | apply hoare_ret]. }
  intros _.
  apply preserves_bind; [apply preserves_updateFormStatus |]. intros _.
  apply hoare_updateFormValues. cbn. auto.
Qed.

(** [submit] that is not a duplicated call ends at [VALIDATE] (a fee
    query rejected), [CONFIRM], [MIGRATE] or [DONE]. *)
Lemma submitForm_status env :
  hoare (fun w => processing (form w) = false) (submitForm env)
    (statusIn (fun s => s = VALIDATE \/ s = CONFIRM \/ s = MIGRATE \/ s = DONE)).
Proof.
  set (S := fun s => s = VALIDATE \/ s = CONFIRM \/ s = MIGRATE \/ s = DONE).
  unfold submitForm. apply hoare_getForm. intros f.
  apply hoare_if; intros Hp.
  { intros w [Hw <-]. congruence. }
  eapply hoare_seq with (R := fun _ => True);
    [apply total_updateFormStatus | intros w _; exact I | intros _].
  eapply hoare_seq with (R := statusIn S);
    [apply total_updateFormValues | | intros _].
  { eapply hoare_weaken;
      [apply (hoare_updateFormValues (fun _ => True) (fun v => S (status v))) | |];
      unfold S; cbn; auto. }
  apply preserves_bind.
  { unfold validateValues. apply preserves_getForm. intros f'.
    apply preserves_validateAssets. }
  intros validated. apply hoare_if; intros _.
  - eapply hoare_seq with (R := statusIn S);
      [apply total_updateFormValues | | intros _; apply preserves_updateFormStatus].
    apply hoare_updateFormValues. unfold S. cbn. auto.
  - apply preserves_bind; [| intros _; apply preserves_updateFormStatus].
    apply preserves_tryCatch.
    + eapply hoare_weaken; [apply migrateNotes_status | intros w _; exact I |].
      unfold S, statusIn, onValues. cbn. tauto.
    + intros e. apply hoare_updateFormValues. cbn. auto.
Qed.

(** *** The order of the statuses *)

Lemma statusIndex_nonneg s : 0 <= statusIndex s.
Proof. destruct s; cbn; lia. Qed.

Lemma onProviderStateChange_idle env w :
  statusOf w <> CONNECT -> onProviderStateChange env w = (Return tt, w).
Proof.
  unfold statusOf, onProviderStateChange, bind, getForm. intros Hs.
  destruct (status (formValues (form w))); try reflexivity. congruence.
Qed.

Lemma onProviderStateChange_forward env w :
  statusIndex (statusOf w)
  <= statusIndex (statusOf (snd (onProviderStateChange env w))).
Proof.
  destruct (statusOf w) eqn:Hs;
    try (rewrite onProviderStateChange_idle by congruence; cbn [snd];
         rewrite Hs; cbn; lia).
  apply statusIndex_nonneg.
Qed.

Lemma init_forward env w :
  statusIndex (statusOf w) <= statusIndex (statusOf (snd (init env w))).
Proof.
  unfold init, bind.
  assert (Hp : exists w1, providerOn w = (Return tt, w1) /\ statusOf w1 = statusOf w).
  { unfold providerOn, bind, getForm.
    destruct (provider (form w)); eexists; split; reflexivity. }
  destruct Hp as (w1 & -> & <-). apply onProviderStateChange_forward.
Qed.

(** C1, as the code has it.  In the order [CONNECT], [SYNC],
    [CONFIRM], [VALIDATE], [MIGRATE], [DONE] the status never moves
    backward under [init] and [onProviderStateChange]; nor under
    [syncBalance] entered at [CONNECT] or [SYNC], nor under
    [migrateNotes] entered at or before [MIGRATE].  [submit] changes
    nothing on a form that is processing; otherwise it ends at
    [VALIDATE], [CONFIRM], [MIGRATE] or [DONE] whatever the status was,
    so it does not move backward when called at or before [CONFIRM]. *)
Theorem status_forward_but_for_submit (env : Env) (w : World) :
  statusIndex (statusOf w) <= statusIndex (statusOf (snd (init env w)))
  /\ statusIndex (statusOf w)
     <= statusIndex (statusOf (snd (onProviderStateChange env w)))
  /\ (statusIndex (statusOf w) <= statusIndex SYNC ->
      statusIndex (statusOf w) <= statusIndex (statusOf (snd (syncBalance env w))))
  /\ (statusIndex (statusOf w) <= statusIndex MIGRATE ->
      statusIndex (statusOf w) <= statusIndex (statusOf (snd (migrateNotes env w))))
  /\ (processing (form w) = true -> snd (submitForm env w) = w)
  /\ (processing (form w) = false ->
      statusOf (snd (submitForm env w)) = VALIDATE
      \/ statusOf (snd (submitForm env w)) = CONFIRM
      \/ statusOf (snd (submitForm env w)) = MIGRATE
      \/ statusOf (snd (submitForm env w)) = DONE)
  /\ (statusIndex (statusOf w) <= statusIndex CONFIRM ->
      statusIndex (statusOf w) <= statusIndex (statusOf (snd (submitForm env w)))).
Proof.
  split; [apply init_forward |].
  split; [apply onProviderStateChange_forward |].
  assert (Hsub : processing (form w) = true -> snd (submitForm env w) = w).
  { intros Hp. rewrite submitForm_unfold, Hp. reflexivity. }
  split; [| split; [| split; [exact Hsub | split]]].
  - intros Hle. destruct (syncBalance_status env w I) as [H | H];
      unfold statusOf in *; rewrite H; cbn in *; lia.
  - intros Hle. destruct (migrateNotes_status env w I) as [H | H];
      unfold statusOf in *; rewrite H; cbn in *; lia.
  - intros Hp. apply (submitForm_status env w Hp).
  - intros Hle. destruct (processing (form w)) eqn:Hp.
    + rewrite Hsub by reflexivity. lia.
    + destruct (submitForm_status env w Hp) as [H | [H | [H | H]]];
        unfold statusOf in *; rewrite H; cbn in *; lia.
Qed.

(** A first submit on the synchronised form. *)
Lemma status_forward_but_for_submit_witness :
  statusIndex (statusOf syncedWorld)
  <= statusIndex (statusOf (snd (submitForm envCalm syncedWorld))).
Proof.
  apply (status_forward_but_for_submit envCalm syncedWorld).
  vm_compute. discriminate.
Defined.

(** A submit whose transfer fails leaves the form at [MIGRATE]; the
    retry, the fee having risen, takes it back to [CONFIRM]. *)
Lemma status_moves_backward :
  exists (env : Env) (w : World),
    reachable w
    /\ statusIndex (statusOf (snd (submitForm env w))) < statusIndex (statusOf w).
Proof.
  exists envFeeUp,
    (performAll [(envCalm, OpInit); (envRejectAt 10, OpSubmit)] sampleWorld).
  split.
  - eexists _, _, _, _. reflexivity.
  - vm_compute. reflexivity.
Qed.

(** *** Validation in [submit] *)

Lemma submitStart_eq w :
  submitStart w
  = (Return tt,
     {| form := withValues (withFormStatus (form w) PROCESSING)
                  {| migratingAssets := migratingAssets (formValues (form w));
                     status := VALIDATE;
                     submit := {| value := true; field := Cleared |} |};
        clock := clock w;
        log := log w ++ [UPDATED_FORM_STATUS PROCESSING;
                         UPDATED_FORM_VALUES
                           {| migratingAssets := migratingAssets (formValues (form w));
                              status := VALIDATE;
                              submit := {| value := true; field := Cleared |} |}] |}).
Proof.
  unfold submitStart, bind, updateFormStatus, updateFormValues, bind, getForm,
    setForm, emit. cbn. rewrite <- app_assoc. reflexivity.
Qed.

Lemma submitInvalid_eq validated w :
  submitInvalid validated w
  = (Return tt,
     {| form := withFormStatus
                  (withValues (form w)
                     {| migratingAssets :=
                          mergeInput (migratingAssets (formValues (form w)))
                            (migratingAssets validated);
                        status := CONFIRM;
                        submit := {| value := false; field := Cleared |} |})
                  LOCKED;
        clock := clock w;
        log := log w ++ [UPDATED_FORM_VALUES
                           {| migratingAssets :=
                                mergeInput (migratingAssets (formValues (form w)))
                                  (migratingAssets validated);
                              status := CONFIRM;
                              submit := {| value := false; field := Cleared |} |};
                         UPDATED_FORM_STATUS LOCKED] |}).
Proof.
  unfold submitInvalid, bind, updateFormStatus, updateFormValues, bind, getForm,
    setForm, emit. cbn. rewrite <- app_assoc. reflexivity.
Qed.

Lemma Frame_noProof (C : Event -> Prop) w w' :
  (forall e, C e -> noProofEvent e) ->
  Frame C w w' ->
  exists new, log w' = log w ++ new /\ Forall noProofEvent new.
Proof.
  intros HC []. destruct frame_log0 as (new & Hl & Hf).
  exists new. split; [assumption |].
  eapply Forall_impl; [exact Hf |]. cbn. intros e [He | He]; [auto |].
  destruct e; cbn in *; try tauto; reflexivity.
Qed.

Lemma isGetFee_noProof e : isGetFee e -> noProofEvent e.
Proof. destruct e; cbn; try tauto; reflexivity. Qed.

(** What [submit] does with the outcome of validation. *)
Lemma submitForm_validation env w :
  processing (form w) = false ->
  calmFor env (clock w) (length (assetsOf w)) ->
  exists w2,
    Frame isGetFee (snd (submitStart w)) w2
    /\ submitForm env w
       = if insufficientFee env (clock w) (assetsOf w)
            || isError (messageType (migratingAssets (formValues (form w))))
         then
           submitInvalid
             (if insufficientFee env (clock w) (assetsOf w)
              then withInsufficientFee (formValues (form (snd (submitStart w))))
              else formValues (form (snd (submitStart w))))
             w2
         else submitMigrate env w2.
Proof.
  intros Hp Hcalm. rewrite submitForm_unfold, Hp. cbv zeta.
  destruct (validateAssets_spec env (assetsOf (snd (submitStart w)))
              (formValues (form (snd (submitStart w)))) (snd (submitStart w)))
    as (r & w2 & He & Hf & _ & Hc).
  rewrite He. exists w2. split; [exact Hf |].
  rewrite submitStart_eq in *. cbn [snd] in *.
  change (assetsOf _) with (assetsOf w) in Hc.
  cbn [clock] in Hc. rewrite (Hc Hcalm).
  destruct (insufficientFee env (clock w) (assetsOf w)); [reflexivity |].
  cbn. unfold isValidForm. cbn.
  destruct (isError (messageType (migratingAssets (formValues (form w)))));
    reflexivity.
Qed.

Lemma submitMigrate_status env :
  hoare (fun _ => True) (submitMigrate env)
    (statusIn (fun s => s = MIGRATE \/ s = DONE)).
Proof.
  unfold submitMigrate.
  eapply hoare_bind with (R := statusIn (fun s => s = MIGRATE \/ s = DONE));
    [| auto | intros _; apply preserves_updateFormStatus].
  eapply hoare_tryCatch with (R := statusIn (fun s => s = MIGRATE \/ s = DONE));
    [apply migrateNotes_status | auto |].
  intros e. apply hoare_updateFormValues. cbn. auto.
Qed.

(** C2, as the code has it.  Let [submit] be called on a form that is
    not processing, and let the fee queries of validation resolve.  If
    some asset's quote exceeds its stored fee, [submit] attaches
    "Insufficient fee." to [migratingAssets], sets the status back to
    [CONFIRM] and [submit] to false, locks the form and creates and sends
    no proof.  If no quote exceeds the stored fee and [migratingAssets]
    carries no error message yet, validation passes and [migrateNotes]
    is invoked.  If no quote exceeds the stored fee but [migratingAssets]
    still carries an error message, validation fails all the same. *)
Theorem submit_validation (env : Env) (w : World) :
  processing (form w) = false ->
  calmFor env (clock w) (length (assetsOf w)) ->
  (insufficientFee env (clock w) (assetsOf w) = true ->
   exists w',
     submitForm env w = (Return tt, w')
     /\ field (migratingAssets (formValues (form w')))
        = Message "Insufficient fee." ERROR
     /\ assetsOf w' = assetsOf w
     /\ statusOf w' = CONFIRM
     /\ submit (formValues (form w')) = {| value := false; field := Cleared |}
     /\ formStatus (form w') = LOCKED
     /\ exists new, log w' = log w ++ new /\ Forall noProofEvent new)
  /\ (insufficientFee env (clock w) (assetsOf w) = false ->
      isError (messageType (migratingAssets (formValues (form w)))) = false ->
      exists w2,
        Frame isGetFee (snd (submitStart w)) w2
        /\ submitForm env w = submitMigrate env w2
        /\ (statusOf (snd (submitForm env w)) = MIGRATE
            \/ statusOf (snd (submitForm env w)) = DONE))
  /\ (insufficientFee env (clock w) (assetsOf w) = false ->
      isError (messageType (migratingAssets (formValues (form w)))) = true ->
      exists w',
        submitForm env w = (Return tt, w')
        /\ migratingAssets (formValues (form w'))
           = migratingAssets (formValues (form w))
        /\ statusOf w' = CONFIRM
        /\ submit (formValues (form w')) = {| value := false; field := Cleared |}
        /\ formStatus (form w') = LOCKED
        /\ exists new, log w' = log w ++ new /\ Forall noProofEvent new).
Proof.
  intros Hp Hcalm.
  destruct (submitForm_validation env w Hp Hcalm) as (w2 & Hf & He).
  assert (Hlog : forall tail, Forall noProofEvent tail ->
            exists new, (log w2 ++ tail) = log w ++ new /\ Forall noProofEvent new).
  { intros tail Ht.
    destruct (Frame_noProof isGetFee _ _ isGetFee_noProof Hf) as (new & Hl & Hn).
    rewrite submitStart_eq in Hl. cbn in Hl.
    eexists. split; [rewrite Hl, <- !app_assoc; reflexivity |].
    apply Forall_app. split; [repeat constructor |].
    apply Forall_app. split; assumption. }
  pose proof (frame_values _ _ _ Hf) as Hv2.
  rewrite submitStart_eq in Hv2. cbn in Hv2.
  split; [| split].
  - intros Hi. rewrite Hi in He. cbn [orb] in He.
    rewrite submitInvalid_eq in He. eexists. split; [exact He |].
    unfold assetsOf, statusOf. cbn. rewrite Hv2. cbn.
    repeat (split; [reflexivity |]).
    apply Hlog. repeat constructor.
  - intros Hi Herr. rewrite Hi, Herr in He. cbn [orb] in He.
    exists w2. split; [exact Hf |]. split; [exact He |].
    rewrite He. apply (submitMigrate_status env w2 I).
  - intros Hi Herr. rewrite Hi, Herr in He. cbn [orb] in He.
    rewrite submitInvalid_eq in He. eexists. split; [exact He |].
    unfold statusOf. cbn. rewrite Hv2. cbn.
    split.
    { destruct (migratingAssets (formValues (form w))) as [assets [| | text type]];
        cbn in *; try discriminate; reflexivity. }
    repeat (split; [reflexivity |]).
    apply Hlog. repeat constructor.
Qed.

Lemma calmFor_envCalm t n : calmFor envCalm t n.
Proof. intros t' _. reflexivity. Qed.

(** A submit on the synchronised form after the fee has risen. *)
Lemma submit_validation_witness :
  exists w',
    submitForm envFeeUp syncedWorld = (Return tt, w')
    /\ field (migratingAssets (formValues (form w')))
       = Message "Insufficient fee." ERROR
    /\ statusOf w' = CONFIRM.
Proof.
  destruct (proj1 (submit_validation envFeeUp syncedWorld eq_refl
                     (calmFor_envCalm _ _)) eq_refl)
    as (w' & He & Hm & _ & Hs & _).
  exists w'. auto.
Defined.

(** After a submit that failed validation, a submit whose quotes are
    all within the stored fees fails validation again: the error message
    is still attached to [migratingAssets]. *)
Lemma sufficient_fee_validation_fails :
  exists (env : Env) (w : World),
    reachable w
    /\ processing (form w) = false
    /\ calmFor env (clock w) (length (assetsOf w))
    /\ insufficientFee env (clock w) (assetsOf w) = false
    /\ statusOf (snd (submitForm env w)) = CONFIRM
    /\ Forall (fun v => status v <> MIGRATE)
         (emittedValues (skipn (length (log w)) (log (snd (submitForm env w))))).
Proof.
  exists envCalm,
    (performAll [(envCalm, OpInit); (envFeeUp, OpSubmit)] sampleWorld).
  split; [eexists _, _, _, _; reflexivity |].
  split; [reflexivity |].
  split; [apply calmFor_envCalm |].
  split; [reflexivity |].
  split; [reflexivity |].
  vm_compute. repeat constructor; discriminate.
Qed.

(** *** The migrated values *)

Lemma migrateNotes_unfold env w :
  migrateNotes env w
  = let w1 := snd (updateFormValues (statusChange MIGRATE) w) in
    match keyVault (form w) with
    | None => (Throw (TypeError "Cannot destructure property of undefined"), w1)
    | Some k =>
      match migrateAssets env (prevUserIdOf (form w) k) (assetsOf w) w1 with
      | (Return Returned, w2) => (Return tt, w2)
      | (Return Completed, w2) =>
        bind (await env (RemoveUser (prevUserIdOf (form w) k)))
          (fun _ => updateFormValues (statusChange DONE)) w2
      | (Throw e, w2) => (Throw e, w2)
      end
    end.
Proof.
  unfold migrateNotes, requireKeyVault, bind, getForm. cbn.
  destruct (keyVault (form w)) as [k |]; [| reflexivity].
  cbn. unfold assetsOf, prevUserIdOf. cbn.
  destruct (migrateAssets _ _ _ _) as [[[|] | e] w2]; reflexivity.
Qed.















(** *** Invariants of a session *)

Section SessionInvariant.

Variable F : MigrateForm -> Prop.
Variable Q : Event -> Prop.
Variable l0 : list Event.

Hypothesis F_steady : forall f f', FormStep f f' -> F f -> F f'.
Hypothesis F_values :
  forall f v', F f ->
    value (migratingAssets v') = value (migratingAssets (formValues f)) ->
    status v' = VALIDATE \/ status v' = CONFIRM
    \/ status v' = status (formValues f) ->
    F (withValues f v').
Hypothesis Q_ext : forall e, isExtEvent e -> Q e.
Hypothesis Q_values : forall v, Q (UPDATED_FORM_VALUES v).
Hypothesis Q_fee : forall id, Q (GetFee id).
Hypothesis Q_on : Q ProviderOn.
Hypothesis migrateNotes_inv :
  forall env, preserves (sessionInv F Q l0) (migrateNotes env).
Hypothesis onProviderStateChange_inv :
  forall env, preserves (sessionInv F Q l0) (onProviderStateChange env).

Lemma sessionInv_Frame (C : Event -> Prop) w w' :
  (forall e, C e -> Q e) -> Frame C w w' ->
  sessionInv F Q l0 w -> sessionInv F Q l0 w'.
Proof.
  intros HC [] [HF (new & Hl & Hq)]. split.
  - apply (F_steady (form w)); [repeat split; assumption | exact HF].
  - destruct frame_log0 as (more & Hm & Hmq).
    exists (new ++ more). split; [rewrite Hm, Hl, <- app_assoc; reflexivity |].
    apply Forall_app. split; [exact Hq |].
    eapply Forall_impl; [exact Hmq |]. cbn. intros e [He | He]; auto.
Qed.

Lemma sessionInv_ExtRun w w' :
  ExtRun w w' -> sessionInv F Q l0 w -> sessionInv F Q l0 w'.
Proof.
  intros [] [HF (new & Hl & Hq)]. split.
  - apply (F_steady (form w)); [repeat split; assumption | exact HF].
  - destruct ext_log0 as (more & Hm & Hmq).
    exists (new ++ more). split; [rewrite Hm, Hl, <- app_assoc; reflexivity |].
    apply Forall_app. split; [exact Hq |].
    eapply Forall_impl; [exact Hmq |]. auto.
Qed.

Lemma sessionInv_updateFormStatus s :
  preserves (sessionInv F Q l0) (updateFormStatus s).
Proof.
  intros w [HF (new & Hl & Hq)]. split.
  - apply (F_steady (form w)); [repeat split; try reflexivity; auto | exact HF].
  - exists (new ++ [UPDATED_FORM_STATUS s]). cbn.
    split; [rewrite Hl, <- app_assoc; reflexivity |].
    apply Forall_app. split; [exact Hq |]. repeat constructor. now apply Q_ext.
Qed.

Lemma sessionInv_updateFormValues changes :
  (forall v,
      value (migratingAssets (mergeValues v changes)) = value (migratingAssets v)
      /\ (status (mergeValues v changes) = VALIDATE
          \/ status (mergeValues v changes) = CONFIRM
          \/ status (mergeValues v changes) = status v)) ->
  preserves (sessionInv F Q l0) (updateFormValues changes).
Proof.
  intros Hc w [HF (new & Hl & Hq)]. destruct (Hc (formValues (form w))) as [Ha Hs].
  split.
  - cbn. apply F_values; assumption.
  - eexists (new ++ [_]). cbn.
    split; [rewrite Hl, <- app_assoc; reflexivity |].
    apply Forall_app. split; [exact Hq |]. repeat constructor. apply Q_values.
Qed.

Lemma sessionInv_submitForm env :
  preserves (sessionInv F Q l0) (submitForm env).
Proof.
  intros w Hw. rewrite submitForm_unfold.
  destruct (processing (form w)); [exact Hw |]. cbv zeta.
  assert (H1 : sessionInv F Q l0 (snd (submitStart w))).
  { unfold submitStart.
    apply (preserves_bind (sessionInv F Q l0)); [| | exact Hw].
    - apply sessionInv_updateFormStatus.
    - intros _. apply sessionInv_updateFormValues. intros v. cbn. auto. }
  destruct (validateAssets_spec env (assetsOf (snd (submitStart w)))
              (formValues (form (snd (submitStart w)))) (snd (submitStart w)))
    as (r & w2 & He & Hf & Hv & _).
  rewrite He.
  assert (H2 : sessionInv F Q l0 w2).
  { eapply sessionInv_Frame; [| exact Hf | exact H1].
    intros e. destruct e; cbn; try tauto. intros _. apply Q_fee. }
  destruct r as [validated | e]; [| exact H2].
  destruct (negb (isValidForm validated)).
  - rewrite submitInvalid_eq. cbn [snd].
    assert (Ha : value (migratingAssets validated)
                 = value (migratingAssets (formValues (form w2)))).
    { rewrite (frame_values _ _ _ Hf).
      destruct (Hv validated eq_refl) as [-> | ->]; reflexivity. }
    destruct H2 as [HF (new & Hl & Hq)]. split.
    + cbn [form].
      match goal with |- F (withFormStatus ?f _) =>
        apply (F_steady f); [repeat split; try reflexivity; auto |] end.
      apply F_values; [exact HF | exact Ha | cbn; auto].
    + eexists (new ++ [_; _]). cbn [log].
      split; [rewrite Hl, <- app_assoc; reflexivity |].
      apply Forall_app. split; [exact Hq |].
      repeat constructor; [apply Q_values | now apply Q_ext].
  - unfold submitMigrate.
    apply (preserves_bind (sessionInv F Q l0)); [| | exact H2].
    + apply preserves_tryCatch; [apply migrateNotes_inv |].
      intros e. apply sessionInv_updateFormValues. intros v. cbn. auto.
    + intros _. apply sessionInv_updateFormStatus.
Qed.

Lemma sessionInv_perform env o :
  preserves (sessionInv F Q l0) (perform env o).
Proof.
  destruct o; cbn [perform].
  - unfold init. apply preserves_bind; [| intros _; apply onProviderStateChange_inv].
    intros w [HF (new & Hl & Hq)]. unfold providerOn, bind, getForm.
    destruct (provider (form w)); cbn; [| split; eauto].
    split; [exact HF |]. exists (new ++ [ProviderOn]).
    split; [rewrite Hl, <- app_assoc; reflexivity |].
    apply Forall_app. split; [exact Hq |]. repeat constructor. exact Q_on.
  - apply onProviderStateChange_inv.
  - apply sessionInv_submitForm.
  - intros w. apply sessionInv_ExtRun. apply (runExt_ExtRun w ExtDestroy).
  - intros w. apply sessionInv_ExtRun. apply (runExt_ExtRun w ExtUnlock).
  - intros w. apply sessionInv_ExtRun. apply (runExt_ExtRun w ExtLock).
Qed.

Lemma sessionInv_performAll script w :
  sessionInv F Q l0 w -> sessionInv F Q l0 (performAll script w).
Proof.
  revert w. induction script as [| [env o] rest IH]; intros w Hw; cbn.
  - exact Hw.
  - apply IH, sessionInv_perform, Hw.
Qed.

End SessionInvariant.

(** *** The destroyed flag *)











(** *** Synchronisation without funds *)

Lemma syncAsset_spec env prev a w :
  exists r w',
    syncAsset env prev a w = (r, w')
    /\ Frame isSyncCall w w'
    /\ (calmFor env (clock w) 2 ->
        exists a', r = Return a' /\ clock w' = (clock w + 2)%nat).
Proof.
  unfold syncAsset, sdk_getSpendableNotes, sdk_getFee. unfold bind at 1.
  destruct (awaitAnswer_cases env (GetSpendableNotes (assetId a) prev)
              (fun t => spendableNotes env t (assetId a)) w)
    as (w1 & Hs1 & [[Hr Ha] | [_ Ha]]); rewrite Ha.
  { eexists _, _. split; [reflexivity |]. split; [frame_of Hs1 |].
    intros Hc. rewrite Hc in Hr by lia. discriminate. }
  unfold bind at 1.
  destruct (awaitAnswer_cases env (GetFee (assetId a))
              (fun t => feeQuote env t (assetId a)) w1)
    as (w2 & Hs2 & [[Hr Hb] | [_ Hb]]); rewrite Hb.
  { eexists _, _. split; [reflexivity |].
    split; [eapply Frame_trans; [frame_of Hs1 | frame_of Hs2] |].
    intros Hc. rewrite Hc in Hr by (rewrite (susp_clock _ _ _ Hs1); lia).
    discriminate. }
  eexists _, _. split; [reflexivity |].
  split; [eapply Frame_trans; [frame_of Hs1 | frame_of Hs2] |].
  intros _. eexists. split; [reflexivity |].
  cbn. rewrite (susp_clock _ _ _ Hs2), (susp_clock _ _ _ Hs1). lia.
Qed.

Lemma syncAssets_spec env prev assets w :
  exists r w',
    syncAssets env prev assets w = (r, w')
    /\ Frame isSyncCall w w'
    /\ (calmFor env (clock w) (2 * length assets) ->
        exists synced,
          r = Return synced /\ clock w' = (clock w + 2 * length assets)%nat).
Proof.
  revert w. induction assets as [| a rest IH]; intros w.
  - exists (Return []), w. split; [reflexivity |]. split; [apply Frame_refl |].
    intros _. exists []. split; [reflexivity | cbn; lia].
  - cbn [syncAssets]. unfold bind at 1.
    destruct (syncAsset_spec env prev a w) as (r1 & w1 & He1 & Hf1 & Hc1).
    rewrite He1. destruct r1 as [a' | e].
    2: { eexists _, _. split; [reflexivity |]. split; [exact Hf1 |].
         intros Hc. destruct Hc1 as (a' & Habs & _); [| discriminate].
         intros t Ht. apply Hc. cbn [length]. lia. }
    unfold bind at 1.
    destruct (IH w1) as (r2 & w2 & He2 & Hf2 & Hc2). rewrite He2.
    destruct r2 as [others | e].
    2: { eexists _, _. split; [reflexivity |].
         split; [eapply Frame_trans; eassumption |].
         intros Hc.
         destruct Hc1 as (a'' & _ & Hk1);
           [intros t Ht; apply Hc; cbn [length]; lia |].
         destruct Hc2 as (s & Habs & _); [| discriminate].
         intros t Ht. apply Hc. cbn [length]. lia. }
    eexists _, _. split; [reflexivity |].
    split; [eapply Frame_trans; eassumption |].
    intros Hc.
    destruct Hc1 as (a'' & _ & Hk1);
      [intros t Ht; apply Hc; cbn [length]; lia |].
    destruct Hc2 as (s & _ & Hk2);
      [intros t Ht; apply Hc; cbn [length]; lia |].
    eexists. split; [reflexivity |]. cbn [snd length]. lia.
Qed.

Lemma syncBalance_unfold env w :
  syncBalance env w
  = let w1 := snd (syncStart w) in
    match keyVault (form w) with
    | None => (Throw (TypeError "Cannot destructure property of undefined"), w1)
    | Some k =>
      let prev := prevUserIdOf (form w) k in
      bind (await env (AddUser (accountPrivateKey k) (nonce prev)))
        (fun _ =>
           bind (await env (AwaitUserSynchronised prev))
             (fun _ =>
                bind getForm
                  (fun f =>
                     bind (syncAssets env prev
                             (value (migratingAssets (formValues f))))
                       (fun synced =>
                          bind (if negb (someMigratable synced)
                                then await env (RemoveUser prev) else ret tt)
                            (fun _ => syncFinish synced))))) w1
    end.
Proof.
  unfold syncBalance, syncStart, requireKeyVault, bind at 1 2 3 4, getForm. cbn.
  destruct (keyVault (form w)); reflexivity.
Qed.

#[local] Arguments someMigratable : simpl never.

Lemma isSyncCall_plain (C : Event -> Prop) new :
  (forall e, isSyncCall e -> C e) -> (forall e, isExtEvent e -> C e) ->
  Forall (fun e => isSyncCall e \/ isExtEvent e) new -> Forall C new.
Proof.
  intros H1 H2 Hf. eapply Forall_impl; [exact Hf |]. cbn. intros e [He | He]; auto.
Qed.

Lemma noProof_sync e : isSyncCall e -> noProofEvent e.
Proof. destruct e; cbn; try tauto; reflexivity. Qed.

Lemma noProof_ext e : isExtEvent e -> noProofEvent e.
Proof. destruct e; cbn; try tauto; reflexivity. Qed.

Lemma notRemoveUser_sync e : isSyncCall e -> notRemoveUser e.
Proof. destruct e; cbn; try tauto; reflexivity. Qed.

Lemma notRemoveUser_ext e : isExtEvent e -> notRemoveUser e.
Proof. destruct e; cbn; try tauto; reflexivity. Qed.

Ltac forall_events :=
  repeat lazymatch goal with
    | |- Forall _ (_ :: _) => constructor
    | |- Forall _ (_ ++ _) => apply Forall_app; split
    | |- Forall _ [] => constructor
    end.

(** [syncBalance] when none of its awaited calls rejects. *)
Lemma syncBalance_calm env w k :
  keyVault (form w) = Some k ->
  calmFor env (clock w) (3 + 2 * length (assetsOf w)) ->
  exists w' new,
    syncBalance env w = (Return tt, w')
    /\ log w' = log w ++ new
    /\ statusOf w' = CONFIRM
    /\ formStatus (form w') = LOCKED
    /\ Forall noProofEvent new
    /\ (someMigratable (assetsOf w') = false ->
        RemoveUser (prevUserIdOf (form w) k) ∈ new)
    /\ (someMigratable (assetsOf w') = true -> Forall notRemoveUser new).
Proof.
  intros Hk Hcalm. rewrite syncBalance_unfold, Hk. cbv zeta.
  set (prev := prevUserIdOf (form w) k).
  set (w1 := snd (syncStart w)).
  assert (Hl1 : log w1 = log w ++ [UPDATED_FORM_STATUS PROCESSING;
                                   UPDATED_FORM_VALUES (formValues (form w1))]).
  { subst w1. unfold syncStart, bind, updateFormStatus, updateFormValues, bind,
      getForm, setForm, emit. cbn. now rewrite <- app_assoc. }
  assert (Hc1 : clock w1 = clock w) by reflexivity.
  assert (Ha1 : value (migratingAssets (formValues (form w1))) = assetsOf w)
    by reflexivity.
  unfold bind at 1.
  destruct (await_cases env (AddUser (accountPrivateKey k) (nonce prev)) w1)
    as (w2 & Hs2 & [[Hr _] | [_ Ha]]).
  { rewrite Hc1, Hcalm in Hr by lia. discriminate. }
  rewrite Ha. unfold bind at 1.
  destruct (await_cases env (AwaitUserSynchronised prev) w2)
    as (w3 & Hs3 & [[Hr _] | [_ Hb]]).
  { rewrite (susp_clock _ _ _ Hs2), Hc1, Hcalm in Hr by lia. discriminate. }
  rewrite Hb. unfold bind at 1, getForm. unfold bind at 1.
  assert (Hf13 : Frame isSyncCall w1 w3)
    by (eapply Frame_trans; [frame_of Hs2 | frame_of Hs3]).
  assert (Hc3 : clock w3 = (clock w + 2)%nat)
    by (rewrite (susp_clock _ _ _ Hs3), (susp_clock _ _ _ Hs2), Hc1; lia).
  rewrite (frame_values _ _ _ Hf13), Ha1.
  destruct (syncAssets_spec env prev (assetsOf w) w3)
    as (r & w4 & He & Hf34 & Hc4).
  rewrite He.
  destruct Hc4 as (synced & -> & Hck4).
  { intros t Ht. apply Hcalm. lia. }
  assert (Hf14 : Frame isSyncCall w1 w4) by (eapply Frame_trans; eassumption).
  destruct Hf14 as [_ _ _ _ _ _ (newF & Hl4 & HnewF)].
  unfold bind at 1.
  destruct (someMigratable synced) eqn:Hsome; cbn [negb].
  - (* something to migrate: the user is kept *)
    cbn. eexists _, _. split; [reflexivity |]. cbn.
    split; [rewrite Hl4, Hl1, <- !app_assoc; reflexivity |].
    split; [reflexivity |]. split; [reflexivity |].
    unfold assetsOf. cbn. rewrite Hsome.
    split; [| split; [discriminate |]]; intros; forall_events;
      try reflexivity.
    + apply (isSyncCall_plain _ _ noProof_sync noProof_ext HnewF).
    + apply (isSyncCall_plain _ _ notRemoveUser_sync notRemoveUser_ext HnewF).
  - (* nothing to migrate *)
    destruct (await_cases env (RemoveUser prev) w4)
      as (w5 & Hs5 & [[Hr _] | [_ Hc]]).
    { rewrite Hck4, Hc3, Hcalm in Hr by lia. discriminate. }
    rewrite Hc. destruct Hs5 as [_ _ _ _ _ _ (ext & Hl5 & Hext)].
    cbn. eexists _, _. split; [reflexivity |]. cbn.
    split; [rewrite Hl5, Hl4, Hl1, <- !app_assoc; reflexivity |].
    split; [reflexivity |]. split; [reflexivity |].
    unfold assetsOf. cbn. rewrite Hsome.
    split; [| split; [| discriminate]].
    + forall_events; try reflexivity.
      * apply (isSyncCall_plain _ _ noProof_sync noProof_ext HnewF).
      * eapply Forall_impl; [exact Hext | apply noProof_ext].
    + intros _. set_solver.
Qed.

Lemma nothingToMigrate_migrateNotes l0 env :
  preserves (sessionInv nothingToMigrate noProofEvent l0) (migrateNotes env).
Proof.
  intros w [(Hst & Hs) (new & Hl & Hq)].
  rewrite migrateNotes_unfold. cbv zeta.
  set (w1 := snd (updateFormValues (statusChange MIGRATE) w)).
  assert (H1 : sessionInv nothingToMigrate noProofEvent l0 w1).
  { split.
    - split; [discriminate | exact Hs].
    - eexists (new ++ [_]). cbn. split; [rewrite Hl, <- app_assoc; reflexivity |].
      apply Forall_app. split; [exact Hq |]. repeat constructor. }
  destruct (keyVault (form w)) as [k |]; [| exact H1].
  rewrite migrateAssets_nothing by exact Hs.
  unfold bind.
  destruct (await_cases env (RemoveUser (prevUserIdOf (form w) k)) w1)
    as (w2 & Hs2 & [[_ Ha] | [_ Ha]]); rewrite Ha;
    destruct H1 as [(Hst1 & Hs1) (new1 & Hl1 & Hq1)];
    destruct Hs2 as [Hv2 _ _ _ _ _ (ext & Hl2 & Hext)]; cbn [snd].
  - split.
    + unfold nothingToMigrate. rewrite Hv2. auto.
    + exists (new1 ++ RemoveUser (prevUserIdOf (form w) k) :: ext).
      split; [rewrite Hl2, Hl1, <- app_assoc; reflexivity |].
      apply Forall_app. split; [exact Hq1 |]. constructor; [reflexivity |].
      eapply Forall_impl; [exact Hext | apply noProof_ext].
  - split.
    + unfold nothingToMigrate. cbn. rewrite Hv2. split; [discriminate | exact Hs1].
    + eexists (new1 ++ (RemoveUser (prevUserIdOf (form w) k) :: ext) ++ [_]).
      cbn. split; [rewrite Hl2, Hl1, <- !app_assoc; reflexivity |].
      forall_events; try reflexivity; [exact Hq1 |].
      eapply Forall_impl; [exact Hext | apply noProof_ext].
Qed.

Lemma nothingToMigrate_performAll l0 script w :
  sessionInv nothingToMigrate noProofEvent l0 w ->
  sessionInv nothingToMigrate noProofEvent l0 (performAll script w).
Proof.
  apply sessionInv_performAll.
  - intros f f' (Hv & _) (H1 & H2). unfold nothingToMigrate. rewrite Hv. auto.
  - intros f v' (H1 & H2) Ha Hs. unfold nothingToMigrate. cbn. rewrite Ha.
    split; [| exact H2]. destruct Hs as [Hs | [Hs | Hs]]; congruence.
  - apply noProof_ext.
  - reflexivity.
  - reflexivity.
  - reflexivity.
  - intros env. apply nothingToMigrate_migrateNotes.
  - intros env w' Hw'. rewrite onProviderStateChange_idle; [exact Hw' |].
    destruct Hw' as [[H _] _]. exact H.
Qed.

(** C5.  Let the key vault be there and let none of the calls awaited
    by [syncBalance] reject.  Then [syncBalance] returns with status
    [CONFIRM] and the form [LOCKED], having created no proof.  If no
    synchronised asset has a migratable value, the previous-generation
    user has been removed by then, and no later session of the form creates
    or sends a proof; if some asset has one, no user was removed. *)
Theorem syncBalance_skips_without_funds (env : Env) (w : World) (k : KeyVault) :
  keyVault (form w) = Some k ->
  calmFor env (clock w) (3 + 2 * length (assetsOf w)) ->
  exists w' new,
    syncBalance env w = (Return tt, w')
    /\ log w' = log w ++ new
    /\ statusOf w' = CONFIRM
    /\ formStatus (form w') = LOCKED
    /\ Forall noProofEvent new
    /\ (someMigratable (assetsOf w') = false ->
        RemoveUser (prevUserIdOf (form w) k) ∈ new
        /\ forall script, exists later,
             log (performAll script w') = log w' ++ later
             /\ Forall noProofEvent later)
    /\ (someMigratable (assetsOf w') = true -> Forall notRemoveUser new).
Proof.
  intros Hk Hcalm.
  destruct (syncBalance_calm env w k Hk Hcalm)
    as (w' & new & He & Hl & Hst & Hfs & Hnp & Hnone & Hsome).
  exists w', new. repeat (split; [assumption |]).
  split; [| exact Hsome].
  intros Hs. split; [exact (Hnone Hs) |].
  intros script.
  destruct (nothingToMigrate_performAll (log w') script w') as [_ Hlater].
  - split.
    + split; [| exact Hs]. unfold statusOf in Hst. rewrite Hst. discriminate.
    + exists []. split; [now rewrite app_nil_r | constructor].
  - exact Hlater.
Qed.

Lemma calmFor_envEmpty t n : calmFor envEmpty t n.
Proof. intros t' _. reflexivity. Qed.

(** The synchronisation of an account that holds no note. *)
Lemma syncBalance_skips_without_funds_witness :
  exists w' new,
    syncBalance envEmpty connectedWorld = (Return tt, w')
    /\ log w' = log connectedWorld ++ new
    /\ statusOf w' = CONFIRM
    /\ formStatus (form w') = LOCKED.
Proof.
  destruct (syncBalance_skips_without_funds envEmpty connectedWorld
              {| accountPublicKey := 7; accountPrivateKey := 8 |} eq_refl
              (calmFor_envEmpty _ _))
    as (w' & new & He & Hl & Hs & Hf & _).
  exists w', new. auto.
Defined.

(** *** The slices of the loops *)

Lemma pairs_ind (P : list Z -> Prop) :
  P [] -> (forall a, P [a]) -> (forall a b l, P l -> P (a :: b :: l)) ->
  forall l, P l.
Proof.
  intros H0 H1 H2. fix IH 1.
  intros [| a [| b l]]; [exact H0 | exact (H1 a) | exact (H2 a b l (IH l))].
Qed.

(** [notePairs] lists the slices [values.slice(i, i + 2)] for
    [i = 0, 2, 4, ...] below [values.length]. *)
Lemma notePairs_slice (values : list Z) (k : nat) :
  (2 * k < length values)%nat ->
  nth_error (notePairs values) k = Some (slice (2 * k) (2 * k + 2) values).
Proof.
  revert k. induction values as [| a | a b l IH] using pairs_ind; intros k Hk.
  - cbn in Hk. lia.
  - cbn in Hk. assert (k = 0%nat) as -> by lia. reflexivity.
  - destruct k as [| k]; [reflexivity |].
    cbn [notePairs nth_error]. rewrite IH by (cbn [length] in Hk; lia).
    unfold slice. f_equal.
    replace (2 * S k)%nat with (S (S (2 * k))) by lia.
    replace (S (S (2 * k)) + 2 - S (S (2 * k)))%nat with 2%nat by lia.
    replace (2 * k + 2 - 2 * k)%nat with 2%nat by lia.
    reflexivity.
Qed.

Lemma notePairs_length (values : list Z) :
  Z.of_nat (length (notePairs values)) = (Z.of_nat (length values) + 1) / 2.
Proof.
  induction values as [| a | a b l IH] using pairs_ind.
  - reflexivity.
  - reflexivity.
  - cbn [notePairs length]. rewrite !Nat2Z.inj_succ, IH.
    replace (Z.succ (Z.succ (Z.of_nat (length l))) + 1)
      with (Z.of_nat (length l) + 1 + 1 * 2) by lia.
    rewrite Z.div_add by lia. lia.
Qed.

End MigrateFormSpec.
